(** * blinksocks: the [exp-base-auth-stream] preset and the bootstrap
      configuration loader

    A shallow embedding of
    - [src/presets/exp-base-auth-stream.js] (class [ExpBaseAuthStreamPreset]),
    - [bin/bootstrap.js] (function [obtainConfig]),
    together with the properties the specification states about them.

    Buffers are lists of bytes, the preset instance ([this]) is a record
    threaded through a small state-and-exception monad, and what the
    preset obtains from outside the two files (Node's [crypto] ciphers,
    [Buffer.toString], the [ip] package, and the repository's [utils]
    module) is an interface the development is parametric in. *)

From Stdlib Require Import ZArith List String Ascii Lia Bool.
From stdpp Require Import base list strings gmap.
From coqutil Require Import Byte.

Local Open Scope Z_scope.

Abbreviation bytes := (list byte).

#[global] Instance byte_eq_dec : EqDecision byte := Byte.byte_eq_dec.

(** ** Node's [Buffer] *)

Module Buffer.

(** [buf.length] *)
Definition length (b : bytes) : Z := Z.of_nat (List.length b).

(** How [Buffer.prototype.slice] normalises one index: a negative
    index counts from the end, and the result is clamped to
    [0 .. buf.length]. *)
Definition clamp (len i : Z) : Z :=
  if i <? 0 then Z.max (len + i) 0 else Z.min i len.

(** [buf.slice(start, end)] *)
Definition slice (b : bytes) (start end_ : Z) : bytes :=
  let s := clamp (length b) start in
  let e := clamp (length b) end_ in
  take (Z.to_nat (e - s)) (drop (Z.to_nat s) b).

(** [buf.slice(start)] *)
Definition slice_from (b : bytes) (start : Z) : bytes :=
  slice b start (length b).

(** [Buffer.concat(list)] *)
Definition concat (l : list bytes) : bytes := List.concat l.

(** [buf[i]]: [None] stands for [undefined]. *)
Definition index (b : bytes) (i : nat) : option byte := b !! i.

(** [buf.readUInt16BE(0)]; [None] is the [RangeError] Node raises when
    the buffer has fewer than two bytes. *)
Definition readUInt16BE (b : bytes) : option Z :=
  match b with
  | hi :: lo :: _ => Some (byte.unsigned hi * 256 + byte.unsigned lo)
  | _ => None
  end.

(** Flipping bit [bit] of the byte at offset [pos]. *)
Definition flip_byte (bit : Z) (x : byte) : byte :=
  byte.of_Z (Z.lxor (byte.unsigned x) (2 ^ bit)).

Definition flip_bit (b : bytes) (pos : nat) (bit : Z) : bytes :=
  alter (flip_byte bit) pos b.

End Buffer.

(** ** JavaScript exceptions *)

Inductive Exn :=
| TypeError
| RangeError
| Error (message : string).

Inductive Result (A : Type) :=
| Ok (a : A)
| Throw (e : Exn).
Arguments Ok {A} a.
Arguments Throw {A} e.

(** ** What the preset imports *)

(** Node's [crypto] stream ciphers ([createCipheriv], [createDecipheriv]
    and the [update] method of the objects they return),
    [Buffer.prototype.toString], [Buffer.from] and [ip.toString]. *)
Class Node := {
  cipher_state : Type;
  decipher_state : Type;
  createCipheriv : string -> bytes -> bytes -> cipher_state;
  createDecipheriv : string -> bytes -> bytes -> decipher_state;
  cipher_update : cipher_state -> bytes -> cipher_state * bytes;
  decipher_update : decipher_state -> bytes -> decipher_state * bytes;
  toString : bytes -> string;
  ip_toString : bytes -> string;
  Buffer_from : string -> bytes;
}.

(** The repository's [utils] module, which is not among the sources:
    [hmac(algorithm, key, buffer)], [numberToBuffer(num, len)] and
    [EVP_BytesToKey(password, keyLen, ivLen)]. *)
Class Utils := {
  hmac : string -> bytes -> bytes -> bytes;
  numberToBuffer : Z -> Z -> Result bytes;
  EVP_BytesToKey : string -> Z -> Z -> bytes;
}.

(** A decipher follows a cipher created with the same method, key and
    IV when it has been fed exactly what the cipher produced. *)
Inductive in_sync `{Node} : cipher_state -> decipher_state -> Prop :=
| in_sync_create method key iv :
    in_sync (createCipheriv method key iv) (createDecipheriv method key iv)
| in_sync_update c d buffer :
    in_sync c d ->
    in_sync (cipher_update c buffer).1
            (decipher_update d (cipher_update c buffer).2).1.

(** The behaviour of the nine stream modes the preset accepts (CTR and
    CFB): [update] returns as many bytes as it is given, what the
    decipher returns does not depend on how its input is cut into
    chunks, and the decipher undoes the cipher. *)
Class NodeLaws `{Node} := {
  cipher_update_length c buffer :
    List.length (cipher_update c buffer).2 = List.length buffer;
  decipher_update_length d buffer :
    List.length (decipher_update d buffer).2 = List.length buffer;
  decipher_update_app d a b :
    decipher_update d (a ++ b) =
    ((decipher_update (decipher_update d a).1 b).1,
     (decipher_update d a).2 ++ (decipher_update (decipher_update d a).1 b).2);
  decipher_cipher c d buffer :
    in_sync c d ->
    (decipher_update d (cipher_update c buffer).2).2 = buffer;
}.

(** [numberToBuffer(n, 1)] is the one byte [n] when [n] fits, and an
    HMAC-SHA1 digest has 20 bytes. *)
Class UtilsLaws `{Utils} := {
  numberToBuffer_1 n :
    0 <= n <= 255 -> numberToBuffer n 1 = Ok [byte.of_Z n];
  hmac_sha1_length key buffer :
    List.length (hmac "sha1" key buffer) = 20%nat;
}.

(** ** The preset *)

Module Preset.
Section WithImports.

Context `{Node} `{Utils}.

Definition ATYP_V4 : Z := 0x01.
Definition ATYP_V6 : Z := 0x04.

Definition IV_LEN : Z := 16.
Definition HMAC_LEN : Z := 16.

(** available ciphers *)
Definition ciphers : list string :=
  [ "aes-128-ctr"; "aes-192-ctr"; "aes-256-ctr";
    "aes-128-cfb"; "aes-192-cfb"; "aes-256-cfb";
    "camellia-128-cfb"; "camellia-192-cfb"; "camellia-256-cfb" ]%string.

(** The fields of an [ExpBaseAuthStreamPreset] instance; [None] is
    [null]. *)
Record t := {
  _isHandshakeDone : bool;
  _host : option bytes;
  _port : option bytes;
  _cipherName : string;
  _key : option bytes;
  _cipher : option cipher_state;
  _decipher : option decipher_state;
}.

Definition set_isHandshakeDone (v : bool) (this : t) : t :=
  {| _isHandshakeDone := v; _host := _host this; _port := _port this;
     _cipherName := _cipherName this; _key := _key this;
     _cipher := _cipher this; _decipher := _decipher this |}.

Definition set_cipher (v : option cipher_state) (this : t) : t :=
  {| _isHandshakeDone := _isHandshakeDone this; _host := _host this;
     _port := _port this; _cipherName := _cipherName this;
     _key := _key this; _cipher := v; _decipher := _decipher this |}.

Definition set_decipher (v : option decipher_state) (this : t) : t :=
  {| _isHandshakeDone := _isHandshakeDone this; _host := _host this;
     _port := _port this; _cipherName := _cipherName this;
     _key := _key this; _cipher := _cipher this; _decipher := v |}.

(** *** Methods run on [this] and may throw *)

Definition M (A : Type) : Type := t -> Result A * t.

Definition ret {A} (a : A) : M A := fun this => (Ok a, this).

Definition throw {A} (e : Exn) : M A := fun this => (Throw e, this).

Definition bind {A B} (m : M A) (k : A -> M B) : M B := fun this =>
  match m this with
  | (Ok a, this') => k a this'
  | (Throw e, this') => (Throw e, this')
  end.

Definition get {A} (field : t -> A) : M A := fun this => (Ok (field this), this).

Definition modify (f : t -> t) : M unit := fun this => (Ok tt, f this).

(** Reading a field that must not be [null]: using [null] as an
    object is a [TypeError]. *)
Definition get_object {A} (field : t -> option A) : M A := fun this =>
  match field this with
  | Some a => (Ok a, this)
  | None => (Throw TypeError, this)
  end.

Definition lift {A} (r : Result A) : M A := fun this => (r, this).

Notation "x <- m ;; k" := (bind m (fun x => k))
  (at level 100, m at next level, right associativity).
Notation "m ;;; k" := (bind m (fun _ => k))
  (at level 100, right associativity).

(** *** [split('-')[1] / 8] on the cipher name *)

Fixpoint split_dash (s : string) : list string :=
  match s with
  | EmptyString => [EmptyString]
  | String a rest =>
      if Ascii.eqb a "-"%char then EmptyString :: split_dash rest
      else match split_dash rest with
           | w :: ws => String a w :: ws
           | [] => [String a EmptyString]
           end
  end.

Definition digit (a : ascii) : option Z :=
  let n := Z.of_N (N_of_ascii a) in
  if (48 <=? n) && (n <=? 57) then Some (n - 48) else None.

Fixpoint decimal (acc : Z) (s : string) : option Z :=
  match s with
  | EmptyString => Some acc
  | String a rest =>
      match digit a with
      | Some d => decimal (acc * 10 + d) rest
      | None => None
      end
  end.

(** The key length in bytes; [None] is [NaN], which no name of
    [ciphers] produces. *)
Definition key_length (cipherName : string) : option Z :=
  match split_dash cipherName !! 1%nat with
  | Some EmptyString => Some 0
  | Some bits => n ← decimal 0 bits; Some (n / 8)
  | None => None
  end.

(** *** [constructor({type, host, port, method})]

    [method] is [None] when the parameter is not a string;
    [__IS_CLIENT__] and [__KEY__] are the globals the constructor
    reads ([__KEY__ = None] when it is not set). *)
Definition constructor (__IS_CLIENT__ : bool) (__KEY__ : option string)
    (type : Z) (host port : bytes) (method : option string) : Result t :=
  match method with
  | None | Some EmptyString => Throw (Error "'method' must be set")
  | Some method =>
      if negb (bool_decide (method ∈ ciphers)) then
        Throw (Error ("method '" ++ method ++ "' is not supported."))
      else
        let _host :=
          if __IS_CLIENT__ then
            if (type =? ATYP_V4) || (type =? ATYP_V6)
            then Some (Buffer_from (ip_toString host))
            else Some host
          else None in
        let _port := if __IS_CLIENT__ then Some port else None in
        let _key :=
          match __KEY__ with
          | Some (String _ _ as key) =>
              Some (EVP_BytesToKey key (default 0 (key_length method)) IV_LEN)
          | _ => None
          end in
        Ok {| _isHandshakeDone := false; _host := _host; _port := _port;
              _cipherName := method; _key := _key;
              _cipher := None; _decipher := None |}
  end.

(** *** [encrypt(buffer)] and [decrypt(buffer)] *)

Definition encrypt (buffer : bytes) : M bytes :=
  c <- get_object _cipher ;;
  let (c', out) := cipher_update c buffer in
  modify (set_cipher (Some c')) ;;;
  ret out.

Definition decrypt (buffer : bytes) : M bytes :=
  d <- get_object _decipher ;;
  let (d', out) := decipher_update d buffer in
  modify (set_decipher (Some d')) ;;;
  ret out.

(** initialize (de)cipher *)
Definition initialize_cipher (iv : bytes) : M unit :=
  cipherName <- get _cipherName ;;
  key <- get_object _key ;;
  modify (set_cipher (Some (createCipheriv cipherName key iv))) ;;;
  modify (set_decipher (Some (createDecipheriv cipherName key iv))).

(** *** [clientOut({buffer})]

    [iv] is what [crypto.randomBytes(IV_LEN)] returns in this call. *)
Definition clientOut (iv : bytes) (buffer : bytes) : M bytes :=
  done <- get _isHandshakeDone ;;
  if negb done then
    modify (set_isHandshakeDone true) ;;;
    initialize_cipher iv ;;;
    host <- get_object _host ;;
    alen <- lift (numberToBuffer (Buffer.length host) 1) ;;
    port <- get_object _port ;;
    encBuf <- encrypt (Buffer.concat [alen; host; port; buffer]) ;;
    key <- get_object _key ;;
    let hmacEncAddr :=
      Buffer.slice
        (hmac "sha1" key (Buffer.slice encBuf 0 (- Buffer.length buffer)))
        0 HMAC_LEN in
    ret (Buffer.concat [iv; hmacEncAddr; encBuf])
  else
    encrypt buffer.

(** *** [serverIn({buffer, next, broadcast, fail})] *)

(** The three messages [fail] is called with. *)
Inductive FailReason :=
| unexpected_buffer_length_1 (length : Z) (buffer : bytes)
| unexpected_buffer_length_2 (length : Z) (buffer : bytes)
| unexpected_HMAC_SHA1 (hmacTag want : bytes).

(** The [onConnected] closure: it captures [data] (and [this] and
    [next]). *)
Record Callback := { captured_data : bytes }.

Record TargetAddress := { host : string; port : Z }.

(** The action [{type: SOCKET_CONNECT_TO_DST, payload}]. *)
Record ConnectToDst := {
  targetAddress : TargetAddress;
  onConnected : Callback;
}.

(** What one call of [serverIn] does besides updating [this]. *)
Inductive Outcome :=
| Fail (reason : FailReason)
| Broadcast (action : ConnectToDst)
| Return (buffer : bytes).

Definition serverIn (buffer : bytes) : M Outcome :=
  done <- get _isHandshakeDone ;;
  if negb done then
    (* minimal length required *)
    if Buffer.length buffer <? 37 then
      ret (Fail (unexpected_buffer_length_1 (Buffer.length buffer) buffer))
    else
      (* initialize (de)cipher *)
      let iv := Buffer.slice buffer 0 IV_LEN in
      initialize_cipher iv ;;;
      (* decrypt tail *)
      tailBuffer <- decrypt (Buffer.slice_from buffer 32) ;;
      key <- get_object _key ;;
      (* obtain HMAC and ALEN *)
      let hmacTag := Buffer.slice buffer 16 32 in
      match Buffer.index tailBuffer 0 with
      | Some alen =>
          let alen := byte.unsigned alen in
          (* verify length *)
          if Buffer.length buffer <=? 35 + alen then
            ret (Fail (unexpected_buffer_length_2 (Buffer.length buffer) buffer))
          else
            (* verify HMAC *)
            let expHmac :=
              Buffer.slice (hmac "sha1" key (Buffer.slice buffer 32 (35 + alen)))
                           0 HMAC_LEN in
            if negb (bool_decide (expHmac = hmacTag)) then
              ret (Fail (unexpected_HMAC_SHA1 hmacTag expHmac))
            else
              (* obtain addr, port and data *)
              let addr := toString (Buffer.slice tailBuffer 1 (alen + 1)) in
              match Buffer.readUInt16BE
                      (Buffer.slice tailBuffer (alen + 1) (alen + 3)) with
              | None => throw RangeError
              | Some port =>
                  let data := Buffer.slice_from tailBuffer (alen + 3) in
                  (* notify to connect to the real server *)
                  ret (Broadcast
                         {| targetAddress := {| host := addr; port := port |};
                            onConnected := {| captured_data := data |} |})
              end
      | None =>
          (* [alen] is [undefined]: [35 + alen] is [NaN], so the length
             test is false and every slice bounded by it is empty *)
          let expHmac := Buffer.slice (hmac "sha1" key []) 0 HMAC_LEN in
          if negb (bool_decide (expHmac = hmacTag)) then
            ret (Fail (unexpected_HMAC_SHA1 hmacTag expHmac))
          else
            throw RangeError
      end
  else
    out <- decrypt buffer ;;
    ret (Return out).

(** Calling the closure: [next(data); this._isHandshakeDone = true].
    The result is the buffer handed to [next]. *)
Definition call_onConnected (cb : Callback) : M bytes :=
  modify (set_isHandshakeDone true) ;;;
  ret (captured_data cb).

(** *** [serverOut({buffer})] and [clientIn({buffer})] *)

Definition serverOut (buffer : bytes) : M bytes := encrypt buffer.

Definition clientIn (buffer : bytes) : M bytes := decrypt buffer.

End WithImports.
End Preset.

(** ** One relay's use of a preset: the calls it makes over time *)

Module Session.
Section WithImports.

Context `{Node} `{Utils}.

Import Preset.

(** A preset instance together with the [onConnected] closures it has
    handed out through [broadcast], oldest first. *)
Record Instance := {
  this : Preset.t;
  handed_out : list Callback;
}.

(** What the pipeline and the relay can do with an instance. *)
Inductive Call :=
| ClientOut (iv buffer : bytes)
| ServerIn (buffer : bytes)
| ServerOut (buffer : bytes)
| ClientIn (buffer : bytes)
| OnConnected (n : nat).

Definition step (i : Instance) (c : Call) : Instance :=
  match c with
  | ClientOut iv buffer =>
      {| this := (clientOut iv buffer (this i)).2; handed_out := handed_out i |}
  | ServerIn buffer =>
      let (r, this') := serverIn buffer (this i) in
      {| this := this';
         handed_out :=
           match r with
           | Ok (Broadcast action) => handed_out i ++ [onConnected action]
           | _ => handed_out i
           end |}
  | ServerOut buffer =>
      {| this := (serverOut buffer (this i)).2; handed_out := handed_out i |}
  | ClientIn buffer =>
      {| this := (clientIn buffer (this i)).2; handed_out := handed_out i |}
  | OnConnected n =>
      match handed_out i !! n with
      | Some cb =>
          {| this := (call_onConnected cb (this i)).2; handed_out := handed_out i |}
      | None => i
      end
  end.

(** The instance before the first call and after each call. *)
Fixpoint trace (i : Instance) (calls : list Call) : list Instance :=
  match calls with
  | [] => [i]
  | c :: calls => i :: trace (step i c) calls
  end.

Definition flags (i : Instance) (calls : list Call) : list bool :=
  map (fun i => _isHandshakeDone (this i)) (trace i calls).

(** Number of places where a list of flags goes from [from] to [to]. *)
Fixpoint transitions (from to : bool) (l : list bool) : nat :=
  match l with
  | a :: (b :: _) as rest =>
      (if bool_decide (a = from) && bool_decide (b = to) then 1 else 0)%nat
      + transitions from to rest
  | _ => 0%nat
  end.

(** *** A client preset talking to a server preset *)

(** A chunk travelling forward (client to server) or backward. *)
Inductive Msg :=
| Fwd (chunk : bytes)
| Bwd (chunk : bytes).

(** The handshake: the first [clientOut], its frame given whole to
    [serverIn], and the relay calling [onConnected] once connected.
    The result is the address the server connects to, what it hands
    to [next], and the two instances afterwards; [None] when the
    server fails or either side throws. *)
Definition handshake (client server : Preset.t) (iv chunk : bytes)
  : option (TargetAddress * bytes * Preset.t * Preset.t) :=
  match clientOut iv chunk client with
  | (Ok frame, client') =>
      match serverIn frame server with
      | (Ok (Broadcast action), server') =>
          match call_onConnected (onConnected action) server' with
          | (Ok data, server'') =>
              Some (targetAddress action, data, client', server'')
          | _ => None
          end
      | _ => None
      end
  | _ => None
  end.

(** The chunks that follow, each one wrapped on one side and
    unwrapped on the other; the result lists what comes out. Once its
    handshake is done [clientOut] draws no IV. *)
Fixpoint relay (client server : Preset.t) (msgs : list Msg)
  : option (list Msg) :=
  match msgs with
  | [] => Some []
  | Fwd chunk :: msgs =>
      match clientOut [] chunk client with
      | (Ok wire, client') =>
          match serverIn wire server with
          | (Ok (Return out), server') =>
              cons (Fwd out) <$> relay client' server' msgs
          | _ => None
          end
      | _ => None
      end
  | Bwd chunk :: msgs =>
      match serverOut chunk server with
      | (Ok wire, server') =>
          match clientIn wire client with
          | (Ok out, client') =>
              cons (Bwd out) <$> relay client' server' msgs
          | _ => None
          end
      | _ => None
      end
  end.

(** A whole connection: the first forward chunk [first], then
    [msgs]. *)
Definition session (client server : Preset.t) (iv first : bytes)
    (msgs : list Msg) : option (TargetAddress * bytes * list Msg) :=
  match handshake client server iv first with
  | Some (address, data, client', server') =>
      match relay client' server' msgs with
      | Some received => Some (address, data, received)
      | None => None
      end
  | None => None
  end.

(** Feeding [serverIn] a sequence of chunks, with no [onConnected] in
    between; the result lists the outcome of each call. *)
Fixpoint feed (server : Preset.t) (chunks : list bytes)
  : list (Result Outcome) * Preset.t :=
  match chunks with
  | [] => ([], server)
  | chunk :: chunks =>
      let (r, server') := serverIn chunk server in
      let (rs, server'') := feed server' chunks in
      (r :: rs, server'')
  end.

End WithImports.
End Session.

(** ** [bin/bootstrap.js] *)

Module Bootstrap.

(** JavaScript values as far as a configuration holds them. *)
#[warnings="-register-all"] Inductive Value :=
| undefined
| null
| boolean (b : bool)
| number (n : Z)
| NaN
| str (s : string)
| array (items : list Value)
| object (properties : list (string * Value)).

(** An object's own properties; a property that is not there reads
    as [undefined]. *)
Definition prop (o : gmap string Value) (name : string) : Value :=
  default undefined (o !! name).

(** [!!v] *)
Definition truthy (v : Value) : bool :=
  match v with
  | undefined | null | NaN => false
  | boolean b => b
  | number n => negb (n =? 0)
  | str s => negb (String.eqb s EmptyString)
  | array _ | object _ => true
  end.

(** [server[0]] *)
Definition item0 (server : Value) : Result Value :=
  match server with
  | undefined | null => Throw TypeError
  | str (String c _) => Ok (str (String c EmptyString))
  | array (v :: _) => Ok v
  | object properties =>
      Ok (default undefined (snd <$> find (fun p => String.eqb (fst p) "0") properties))
  | _ => Ok undefined
  end.

(** [v !== '-'] *)
Definition is_not_dash (v : Value) : bool :=
  match v with
  | str s => negb (String.eqb s "-")
  | _ => true
  end.

(** [servers.filter((server) => server[0] !== '-')] *)
Fixpoint filter_servers (servers : list Value) : Result (list Value) :=
  match servers with
  | [] => Ok []
  | server :: servers =>
      match item0 server with
      | Throw e => Throw e
      | Ok first =>
          match filter_servers servers with
          | Throw e => Throw e
          | Ok kept => Ok (if is_not_dash first then server :: kept else kept)
          end
      end
  end.

(** const BOOTSTRAP_TYPE_CLIENT = 0; *)
Definition BOOTSTRAP_TYPE_SERVER : Z := 1.

Section WithBuiltins.

(** [parseInt(value, radix)] *)
Variable parseInt : Value -> Z -> Value.

(** Reading the file [options.config] names: [path.resolve], then
    [require] for a [.js] file and [fs.readFileSync] with
    [JSON.parse] for any other. The result holds the own properties
    [Object.assign] copies. *)
Variable load : string -> Result (gmap string Value).

(** [obtainConfig(type, options)] *)
Definition obtainConfig (type : Z) (options : gmap string Value)
  : Result (gmap string Value) :=
  (* CLI options should be able to overwrite options specified in --config *)
  let host := prop options "host" in
  let servers := prop options "servers" in
  let key := prop options "key" in
  let presets := prop options "presets" in
  let redirect := prop options "redirect" in
  let quiet := prop options "quiet" in
  (* pre-process *)
  let port := parseInt (prop options "port") 10 in
  let log_level := if truthy quiet then str "error" else prop options "logLevel" in
  let timeout := parseInt (prop options "timeout") 10 in
  let watch := boolean (truthy (prop options "watch")) in
  let profile := boolean (truthy (prop options "profile")) in
  (* assemble *)
  let config : gmap string Value :=
    <["host" := host]> (<["port" := port]> (<["servers" := servers]>
    (<["key" := key]> (<["presets" := presets]> (<["redirect" := redirect]>
    (<["log_level" := log_level]> (<["timeout" := timeout]>
    (<["watch" := watch]> (<["profile" := profile]> ∅))))))))) in
  (* --config, if provided *)
  let merged : Result (gmap string Value) :=
    match prop options "config" with
    | str EmptyString => Ok config
    | str file =>
        match load file with
        | Ok json => Ok (json ∪ config)
        | Throw _ => Throw (Error ("fail to parse your '" ++ file ++ "'"))
        end
    | _ => Throw TypeError
    end in
  (* post-process *)
  match merged with
  | Throw e => Throw e
  | Ok config =>
      if type =? BOOTSTRAP_TYPE_SERVER then
        Ok (delete "servers" config)
      else
        match prop config "servers" with
        | array servers =>
            match filter_servers servers with
            | Ok kept => Ok (<["servers" := array kept]> config)
            | Throw e => Throw e
            end
        | _ => Throw TypeError
        end
  end.

(** The servers list [obtainConfig] starts from: the one of the
    configuration file when the file has one, the one of the
    options otherwise. *)
Definition input_servers (options : gmap string Value) : Result Value :=
  match prop options "config" with
  | str EmptyString => Ok (prop options "servers")
  | str file =>
      match load file with
      | Ok json => Ok (default (prop options "servers") (json !! "servers"))
      | Throw e => Throw e
      end
  | _ => Throw TypeError
  end.

End WithBuiltins.

(** An entry is disabled when it starts with [-]. *)
Definition disabled (server : string) : bool :=
  match server with
  | String c _ => Ascii.eqb c "-"
  | EmptyString => false
  end.

End Bootstrap.

(** ** The vocabulary of the statements *)

Section Vocabulary.

Context `{Node} `{Utils}.

Import Preset.

(** [ALEN || DST.ADDR || DST.PORT] *)
Definition header (host port : bytes) : bytes :=
  byte.of_Z (Buffer.length host) :: host ++ port.

(** What a cipher freshly created with [(method, key, iv)] returns for
    [plaintext]. *)
Definition StreamEncrypt (method : string) (key iv plaintext : bytes) : bytes :=
  (cipher_update (createCipheriv method key iv) plaintext).2.

(** HMAC-SHA1 truncated to [HMAC_LEN] bytes. *)
Definition tag16 (key data : bytes) : bytes := take 16 (hmac "sha1" key data).

(** [this] after the first [clientOut]. *)
Definition client_after (this : t) (key iv plaintext : bytes) : t :=
  set_decipher (Some (createDecipheriv (_cipherName this) key iv))
    (set_cipher
       (Some (cipher_update (createCipheriv (_cipherName this) key iv) plaintext).1)
       (set_isHandshakeDone true this)).

(** [this] after a [serverIn] that got as far as decrypting the tail. *)
Definition server_after (this : t) (key chunk : bytes) : t :=
  set_decipher
    (Some (decipher_update
             (createDecipheriv (_cipherName this) key (Buffer.slice chunk 0 16))
             (Buffer.slice_from chunk 32)).1)
    (set_cipher
       (Some (createCipheriv (_cipherName this) key (Buffer.slice chunk 0 16)))
       this).

(** The tail [serverIn] decrypts from a chunk. *)
Definition decrypted_tail (method : string) (key chunk : bytes) : bytes :=
  (decipher_update (createDecipheriv method key (Buffer.slice chunk 0 16))
                   (Buffer.slice_from chunk 32)).2.

(** The bytes of a chunk over which [serverIn] computes the HMAC it
    expects. *)
Definition authenticated (method : string) (key chunk : bytes) : bytes :=
  match Buffer.index (decrypted_tail method key chunk) 0 with
  | Some alen => Buffer.slice chunk 32 (35 + byte.unsigned alen)
  | None => []
  end.

(** A client-side instance on which [clientOut] has not run. *)
Definition client_ready (this : t) (method : string) (key host port : bytes) : Prop :=
  _isHandshakeDone this = false /\ _cipherName this = method /\
  _key this = Some key /\ _host this = Some host /\ _port this = Some port.

(** A server-side instance whose handshake is not done. *)
Definition server_ready (this : t) (method : string) (key : bytes) : Prop :=
  _isHandshakeDone this = false /\ _cipherName this = method /\
  _key this = Some key.

(** The frame the first [clientOut] is meant to emit for [data]. *)
Definition handshake_frame (method : string) (key iv host port data : bytes) : bytes :=
  let ciphertext := StreamEncrypt method key iv (header host port ++ data) in
  let enc_addr :=
    take (List.length ciphertext - List.length data) ciphertext in
  iv ++ tag16 key enc_addr ++ ciphertext.

(** Both handshakes are done, the server's decipher follows the
    client's cipher and the client's decipher follows the server's
    cipher. *)
Definition linked (client server : Preset.t) : Prop :=
  _isHandshakeDone client = true /\ _isHandshakeDone server = true /\
  (exists c d, _cipher client = Some c /\ _decipher server = Some d /\ in_sync c d) /\
  (exists c d, _cipher server = Some c /\ _decipher client = Some d /\ in_sync c d).

End Vocabulary.

(** ** An executable instance of the imports

    A byte-wide cipher-feedback construction over a small keyed
    function, a polynomial checksum in the place of HMAC-SHA1, and
    Latin-1 for the conversions between strings and buffers. It shows
    that the laws above can be met and lets the embedding be evaluated
    on concrete buffers; it makes no claim of being the OpenSSL
    primitives. *)

Module Model.

Definition block (key register : bytes) : byte :=
  byte.of_Z (fold_left (fun acc x => acc * 33 + byte.unsigned x + 1)
                       (key ++ register) 5381).

Record cfb8 := {
  cfb_key : bytes;
  register : bytes;
}.

Definition shift (s : cfb8) (c : byte) : cfb8 :=
  {| cfb_key := cfb_key s; register := drop 1 (register s) ++ [c] |}.

Definition create (method : string) (key iv : bytes) : cfb8 :=
  {| cfb_key := key; register := iv |}.

Fixpoint encrypt_update (s : cfb8) (plain : bytes) : cfb8 * bytes :=
  match plain with
  | [] => (s, [])
  | p :: plain =>
      let c := byte.xor p (block (cfb_key s) (register s)) in
      let (s', out) := encrypt_update (shift s c) plain in
      (s', c :: out)
  end.

Fixpoint decrypt_update (s : cfb8) (wire : bytes) : cfb8 * bytes :=
  match wire with
  | [] => (s, [])
  | c :: wire =>
      let p := byte.xor c (block (cfb_key s) (register s)) in
      let (s', out) := decrypt_update (shift s c) wire in
      (s', p :: out)
  end.

#[global] Instance node : Node := {|
  cipher_state := cfb8;
  decipher_state := cfb8;
  createCipheriv := create;
  createDecipheriv := create;
  cipher_update := encrypt_update;
  decipher_update := decrypt_update;
  toString := string_of_list_byte;
  ip_toString := string_of_list_byte;
  Buffer_from := list_byte_of_string;
|}.

(** Little-endian bytes of a number. *)
Fixpoint le_bytes (n : nat) (z : Z) : bytes :=
  match n with
  | O => []
  | S n => byte.of_Z z :: le_bytes n (z / 256)
  end.

Definition checksum (data : bytes) : Z :=
  fold_left (fun acc x => (acc * 257 + byte.unsigned x + 1) mod 2 ^ 160) data
            0x67452301EFCDAB8998BADCFE10325476C3D2E1F0.

Definition model_hmac (algorithm : string) (key data : bytes) : bytes :=
  le_bytes 20 (checksum (key ++ data)).

Definition model_numberToBuffer (num len : Z) : Result bytes :=
  if len <? 1 then Throw (Error "len must be greater than 0")
  else if 256 ^ len - 1 <? num then Throw (Error "Number is too big")
  else Ok (rev (le_bytes (Z.to_nat len) num)).

Definition model_EVP_BytesToKey (password : string) (keyLen ivLen : Z) : bytes :=
  le_bytes (Z.to_nat keyLen) (checksum (list_byte_of_string password)).

#[global] Instance utils : Utils := {|
  hmac := model_hmac;
  numberToBuffer := model_numberToBuffer;
  EVP_BytesToKey := model_EVP_BytesToKey;
|}.

(** Scenario S1 of the specification: method [aes-256-ctr], key
    [secret], destination [127.0.0.1:9], first chunk [hello]. *)

Definition localhost : bytes := list_byte_of_string "127.0.0.1".
Definition port9 : bytes := [byte.of_Z 0; byte.of_Z 9].
Definition hello : bytes := list_byte_of_string "hello".
Definition iv0 : bytes := map byte.of_Z (seqZ 1 16).
Definition iv1 : bytes := map byte.of_Z (seqZ 101 16).

Definition new (is_client : bool) (host : bytes) : Preset.t :=
  match Preset.constructor is_client (Some "secret"%string) 3 host port9
                           (Some "aes-256-ctr"%string) with
  | Ok this => this
  | Throw _ =>
      {| Preset._isHandshakeDone := false; Preset._host := None;
         Preset._port := None; Preset._cipherName := EmptyString;
         Preset._key := None; Preset._cipher := None;
         Preset._decipher := None |}
  end.

Definition client : Preset.t := new true localhost.
Definition server : Preset.t := new false [].

(** The key both derive from [secret]. *)
Definition key : bytes := model_EVP_BytesToKey "secret" 32 16.

(** A client whose destination is the one-letter host [a]. *)
Definition client_a : Preset.t := new true (list_byte_of_string "a").

(** A client whose destination is the empty host. *)
Definition client_nohost : Preset.t := new true [].

(** Scenario S4: 156 bytes of data, which make a frame of 200 bytes. *)
Definition data156 : bytes := map byte.of_Z (seqZ 0 156).

(** What a first [clientOut] returns. *)
Definition first_frame (this : Preset.t) (iv chunk : bytes) : bytes :=
  match Preset.clientOut iv chunk this with
  | (Ok out, _) => out
  | _ => []
  end.

(** The handshake frame of S1. *)
Definition frame : bytes :=
  Eval vm_compute in
    match Preset.clientOut iv0 hello client with
    | (Ok out, _) => out
    | _ => []
    end.

(** A client's options: three servers, the second disabled, and no
    configuration file. *)
Definition options : gmap string Bootstrap.Value :=
  <["config" := Bootstrap.str EmptyString]>
    (<["servers" :=
         Bootstrap.array [Bootstrap.str "a.example:443";
                          Bootstrap.str "-b.example:443";
                          Bootstrap.str "c.example:443"]]>
       (<["port" := Bootstrap.number 1080]> ∅)).

(** Node's [parseInt] on the values the options above hold. *)
Definition model_parseInt (v : Bootstrap.Value) (radix : Z) : Bootstrap.Value :=
  match v with
  | Bootstrap.number n => Bootstrap.number n
  | _ => Bootstrap.NaN
  end.

(** No file can be read. *)
Definition no_file (file : string) : Result (gmap string Bootstrap.Value) :=
  Throw (Error "ENOENT").

(** The frame of S4 and its three fragments. *)
Definition frame200 : bytes := Eval vm_compute in first_frame client iv0 data156.
Definition fragments : list bytes :=
  [take 20 frame200; take 17 (drop 20 frame200); drop 37 frame200].

(** A frame for the empty host, with two bytes of data. *)
Definition frame_nohost : bytes :=
  Eval vm_compute in first_frame client_nohost iv0 (take 2 hello).

(** The first 36 bytes of another frame. *)
Definition other36 : bytes := Eval vm_compute in take 36 (first_frame client iv1 hello).

(** Scenario S2: 36 bytes as the first frame. *)
Definition frame36 : bytes := take 36 frame.

End Model.

(** ** A forward or backward byte stream cut into segments *)

Module Stream.
Section WithImports.

Context `{Node} `{Utils}.

Import Preset.

(** What successive [clientOut] calls return; [iv] is what
    [crypto.randomBytes] returns in the call that draws one. [None]
    when a call throws. *)
Fixpoint send (client : Preset.t) (iv : bytes) (chunks : list bytes)
  : option (list bytes * Preset.t) :=
  match chunks with
  | [] => Some ([], client)
  | chunk :: chunks =>
      match clientOut iv chunk client with
      | (Ok wire, client') =>
          match send client' iv chunks with
          | Some (wires, client'') => Some (wire :: wires, client'')
          | None => None
          end
      | _ => None
      end
  end.

(** What successive [serverIn] calls return once the handshake is
    done, put end to end. *)
Fixpoint drain (server : Preset.t) (segments : list bytes)
  : option (bytes * Preset.t) :=
  match segments with
  | [] => Some ([], server)
  | segment :: segments =>
      match serverIn segment server with
      | (Ok (Return out), server') =>
          match drain server' segments with
          | Some (outs, server'') => Some (out ++ outs, server'')
          | None => None
          end
      | _ => None
      end
  end.

(** The server side of a connection whose bytes arrive as [segments]:
    the first one makes the handshake, the relay connects and calls
    [onConnected] at once, and the others follow. The result is the
    address and all the bytes handed on. *)
Definition receive (server : Preset.t) (segments : list bytes)
  : option (TargetAddress * bytes) :=
  match segments with
  | [] => None
  | first :: segments =>
      match serverIn first server with
      | (Ok (Broadcast action), server1) =>
          match call_onConnected (onConnected action) server1 with
          | (Ok data, server2) =>
              match drain server2 segments with
              | Some (outs, _) => Some (targetAddress action, data ++ outs)
              | None => None
              end
          | _ => None
          end
      | _ => None
      end
  end.

(** What successive [serverOut] calls return. *)
Fixpoint reply (server : Preset.t) (chunks : list bytes)
  : option (list bytes * Preset.t) :=
  match chunks with
  | [] => Some ([], server)
  | chunk :: chunks =>
      match serverOut chunk server with
      | (Ok wire, server') =>
          match reply server' chunks with
          | Some (wires, server'') => Some (wire :: wires, server'')
          | None => None
          end
      | _ => None
      end
  end.

(** What successive [clientIn] calls return, put end to end. *)
Fixpoint collect (client : Preset.t) (segments : list bytes)
  : option (bytes * Preset.t) :=
  match segments with
  | [] => Some ([], client)
  | segment :: segments =>
      match clientIn segment client with
      | (Ok out, client') =>
          match collect client' segments with
          | Some (outs, client'') => Some (out ++ outs, client'')
          | None => None
          end
      | _ => None
      end
  end.

End WithImports.
End Stream.

(** ** More vocabulary *)

Section FieldVocabulary.

Context `{Node} `{Utils}.

Import Preset.

(** A method that leaves the field (or any function of the instance)
    [f] as it finds it, also when it throws. *)
Definition keeps {X A} (f : Preset.t -> X) (m : M A) : Prop :=
  forall this, f (m this).2 = f this.

(** The fields the constructor sets. *)
Definition configuration (this : Preset.t)
  : string * option bytes * option bytes * option bytes :=
  (_cipherName this, _key this, _host this, _port this).

End FieldVocabulary.

(** An entry of [servers] whose [server[0]] can be read. *)
Definition indexable (server : Bootstrap.Value) : Prop :=
  server <> Bootstrap.undefined /\ server <> Bootstrap.null.

(** ** More concrete data *)

Module Cases.

(** A server instance made without a key. *)
Definition keyless : Preset.t :=
  match Preset.constructor false None 3 [] Model.port9
                           (Some "aes-256-ctr"%string) with
  | Ok this => this
  | Throw _ => Model.server
  end.


(** A configuration file with a port, a key and two servers, one of
    them disabled. *)
Definition json : gmap string Bootstrap.Value :=
  <["port" := Bootstrap.number 8080]>
    (<["key" := Bootstrap.str "secret"]>
       (<["servers" :=
            Bootstrap.array [Bootstrap.str "-d.example:443";
                             Bootstrap.str "e.example:443"]]> ∅)).

(** Only [blinksocks.json] can be read. *)
Definition one_file (file : string) : Result (gmap string Bootstrap.Value) :=
  if String.eqb file "blinksocks.json" then Ok json else Throw (Error "ENOENT").

(** The options of [Model.options] with that file named. *)
Definition file_options : gmap string Bootstrap.Value :=
  <["config" := Bootstrap.str "blinksocks.json"]> Model.options.

(** What [obtainConfig] returns, [∅] when it throws. *)
Definition config_of (load : string -> Result (gmap string Bootstrap.Value))
    (type : Z) (options : gmap string Bootstrap.Value)
  : gmap string Bootstrap.Value :=
  match Bootstrap.obtainConfig Model.model_parseInt load type options with
  | Ok config => config
  | Throw _ => ∅
  end.

(** Entries of several kinds, three of them disabled. *)
Definition entries : list Bootstrap.Value :=
  [Bootstrap.str "a.example:443";
   Bootstrap.array [Bootstrap.str "-"; Bootstrap.number 1];
   Bootstrap.str "-b.example:443";
   Bootstrap.number 5;
   Bootstrap.str "-";
   Bootstrap.array []].

End Cases.

(** * Properties *)

(** ** Buffers *)

Lemma Buffer_length_app (a b : bytes) :
  Buffer.length (a ++ b) = Buffer.length a + Buffer.length b.
Proof. unfold Buffer.length. rewrite length_app. lia. Qed.

Lemma Buffer_length_nonneg (b : bytes) : 0 <= Buffer.length b.
Proof. unfold Buffer.length. lia. Qed.

(** With both indices non-negative, [slice] is [take] after [drop]. *)
Lemma Buffer_slice_take_drop (b : bytes) (s e : Z) :
  0 <= s -> 0 <= e ->
  Buffer.slice b s e = take (Z.to_nat e - Z.to_nat s) (drop (Z.to_nat s) b).
Proof.
  intros Hs He. unfold Buffer.slice, Buffer.clamp, Buffer.length.
  destruct (Z.ltb_spec s 0); [lia|]. destruct (Z.ltb_spec e 0); [lia|].
  destruct (Z_le_gt_dec s (Z.of_nat (List.length b))) as [Hle|Hgt].
  - rewrite (Z.min_l s) by lia.
    destruct (Z_le_gt_dec e (Z.of_nat (List.length b))).
    + rewrite (Z.min_l e) by lia. f_equal. lia.
    + rewrite (Z.min_r e) by lia.
      rewrite !take_ge; [done| |]; rewrite length_drop; lia.
  - rewrite (Z.min_r s) by lia.
    rewrite !drop_ge by lia. by rewrite !take_nil.
Qed.

Lemma Buffer_slice_from_drop (b : bytes) (s : Z) :
  0 <= s -> Buffer.slice_from b s = drop (Z.to_nat s) b.
Proof.
  intros Hs. unfold Buffer.slice_from.
  rewrite Buffer_slice_take_drop by (auto using Buffer_length_nonneg).
  apply take_ge. rewrite length_drop. unfold Buffer.length. lia.
Qed.

Lemma Buffer_slice_0 (b : bytes) (e : Z) :
  0 <= e -> Buffer.slice b 0 e = take (Z.to_nat e) b.
Proof.
  intros He. rewrite Buffer_slice_take_drop by lia. simpl. f_equal. lia.
Qed.

(** [buf.slice(0, -n)] drops the last [n] bytes when [n] is positive
    and is empty when [n] is [0]. *)
Lemma Buffer_slice_0_neg (b : bytes) (n : Z) :
  0 < n -> Buffer.slice b 0 (- n) = take (Z.to_nat (Buffer.length b - n)) b.
Proof.
  intros Hn. unfold Buffer.slice, Buffer.clamp.
  destruct (Z.ltb_spec 0 0); [lia|]. destruct (Z.ltb_spec (- n) 0); [|lia].
  pose proof (Buffer_length_nonneg b).
  rewrite Z.min_l by lia. simpl. f_equal. lia.
Qed.

Lemma Buffer_slice_0_0 (b : bytes) : Buffer.slice b 0 (- 0) = [].
Proof.
  change (- 0) with 0. rewrite Buffer_slice_0 by lia. reflexivity.
Qed.

(** ** Bytes *)

Lemma byte_lxor_range (a b : Z) :
  0 <= a < 2 ^ 8 -> 0 <= b < 2 ^ 8 -> 0 <= Z.lxor a b < 2 ^ 8.
Proof.
  intros Ha Hb.
  assert (0 <= Z.lxor a b) by (apply Z.lxor_nonneg; lia).
  split; [done|].
  apply (Z.bounded_iff_bits_nonneg 8); [lia|done|].
  intros l Hl. rewrite Z.lxor_spec.
  rewrite (proj1 (Z.bounded_iff_bits_nonneg 8 a ltac:(lia) ltac:(lia)))
    by lia.
  rewrite (proj1 (Z.bounded_iff_bits_nonneg 8 b ltac:(lia) ltac:(lia)))
    by lia.
  reflexivity.
Qed.

Lemma byte_xor_cancel (p k : byte) : byte.xor (byte.xor p k) k = p.
Proof.
  apply byte.unsigned_inj. unfold byte.xor.
  pose proof (byte.unsigned_range p). pose proof (byte.unsigned_range k).
  rewrite !byte.unsigned_of_Z. unfold byte.wrap.
  rewrite (Z.mod_small (Z.lxor (byte.unsigned p) (byte.unsigned k)))
    by (apply byte_lxor_range; lia).
  rewrite Z.lxor_assoc, Z.lxor_nilpotent, Z.lxor_0_r.
  apply Z.mod_small. lia.
Qed.

(** Flipping one of the eight bits of a byte changes the byte. *)
Lemma flip_byte_neq (bit : Z) (x : byte) :
  0 <= bit < 8 -> Buffer.flip_byte bit x <> x.
Proof.
  intros Hbit Heq. apply (f_equal byte.unsigned) in Heq.
  unfold Buffer.flip_byte in Heq. rewrite byte.unsigned_of_Z in Heq.
  pose proof (byte.unsigned_range x) as Hx.
  assert (0 <= 2 ^ bit < 2 ^ 8) as Hp.
  { split; [apply Z.pow_nonneg; lia|]. apply Z.pow_lt_mono_r; lia. }
  unfold byte.wrap in Heq.
  rewrite Z.mod_small in Heq by (apply byte_lxor_range; lia).
  apply (f_equal (fun z => Z.testbit z bit)) in Heq.
  rewrite Z.lxor_spec, Z.pow2_bits_true in Heq by lia.
  destruct (Z.testbit (byte.unsigned x) bit); discriminate.
Qed.

(** ** The executable instance meets the laws *)

Lemma model_encrypt_update_length s plain :
  List.length (Model.encrypt_update s plain).2 = List.length plain.
Proof.
  revert s. induction plain as [|p plain IH]; intros s; simpl; [done|].
  specialize (IH (Model.shift s (byte.xor p (Model.block (Model.cfb_key s) (Model.register s))))).
  destruct (Model.encrypt_update _ plain). simpl in *. by rewrite IH.
Qed.

Lemma model_decrypt_update_length s wire :
  List.length (Model.decrypt_update s wire).2 = List.length wire.
Proof.
  revert s. induction wire as [|c wire IH]; intros s; simpl; [done|].
  specialize (IH (Model.shift s c)).
  destruct (Model.decrypt_update _ wire). simpl in *. by rewrite IH.
Qed.

Lemma model_decrypt_update_app s a b :
  Model.decrypt_update s (a ++ b) =
  ((Model.decrypt_update (Model.decrypt_update s a).1 b).1,
   (Model.decrypt_update s a).2 ++
   (Model.decrypt_update (Model.decrypt_update s a).1 b).2).
Proof.
  revert s. induction a as [|c a IH]; intros s; simpl.
  - by destruct (Model.decrypt_update s b).
  - rewrite IH. destruct (Model.decrypt_update (Model.shift s c) a). done.
Qed.

(** Deciphering what the cipher produced gives the input back and
    leaves both in the same state. *)
Lemma model_decrypt_encrypt s plain :
  Model.decrypt_update s (Model.encrypt_update s plain).2 =
  ((Model.encrypt_update s plain).1, plain).
Proof.
  revert s. induction plain as [|p plain IH]; intros s; simpl; [done|].
  set (c := byte.xor p _).
  specialize (IH (Model.shift s c)).
  destruct (Model.encrypt_update (Model.shift s c) plain) as [s' out].
  simpl in *. rewrite IH. unfold c. by rewrite byte_xor_cancel.
Qed.

Lemma model_in_sync_eq (c d : Model.cfb8) :
  in_sync (H := Model.node) c d -> c = d.
Proof.
  induction 1 as [|c d buffer _ ->]; [done|].
  simpl. by rewrite model_decrypt_encrypt.
Qed.

#[global] Instance model_node_laws : NodeLaws (H := Model.node).
Proof.
  split.
  - apply model_encrypt_update_length.
  - apply model_decrypt_update_length.
  - apply model_decrypt_update_app.
  - intros c d buffer Hs. apply model_in_sync_eq in Hs as <-.
    simpl. by rewrite model_decrypt_encrypt.
Qed.

Lemma model_le_bytes_length n z : List.length (Model.le_bytes n z) = n.
Proof. revert z. induction n; intros z; simpl; [done|]. by rewrite IHn. Qed.

#[global] Instance model_utils_laws : UtilsLaws (H := Model.utils).
Proof.
  split.
  - intros n Hn. simpl. unfold Model.model_numberToBuffer.
    destruct (Z.ltb_spec (256 ^ 1 - 1) n); [lia|]. reflexivity.
  - intros key buffer. apply model_le_bytes_length.
Qed.

(** ** The preset, call by call *)

Section PresetFacts.

Context `{Node} `{!NodeLaws} `{Utils} `{!UtilsLaws}.

Import Preset.

Lemma tag16_slice key data :
  Buffer.slice (hmac "sha1" key data) 0 HMAC_LEN = tag16 key data.
Proof. unfold HMAC_LEN, tag16. by rewrite Buffer_slice_0 by lia. Qed.

Lemma tag16_length key data : List.length (tag16 key data) = 16%nat.
Proof. unfold tag16. rewrite length_take, hmac_sha1_length. lia. Qed.

Lemma clientOut_first this iv buffer h p k :
  _isHandshakeDone this = false ->
  _host this = Some h -> _port this = Some p -> _key this = Some k ->
  Buffer.length h <= 255 ->
  let encBuf := StreamEncrypt (_cipherName this) k iv (header h p ++ buffer) in
  clientOut iv buffer this =
  (Ok (iv ++ tag16 k (Buffer.slice encBuf 0 (- Buffer.length buffer)) ++ encBuf),
   client_after this k iv (header h p ++ buffer)).
Proof.
  intros Hdone Hh Hp Hk Hlen encBuf. subst encBuf.
  destruct this as [done host port name key c d]; simpl in *; subst.
  unfold clientOut, initialize_cipher, encrypt, bind, get, get_object, modify,
    lift, ret, StreamEncrypt, client_after, header; simpl.
  rewrite numberToBuffer_1 by (pose proof (Buffer_length_nonneg h); lia).
  simpl. rewrite app_nil_r, <- app_assoc. simpl.
  destruct (cipher_update (createCipheriv name k iv) _) as [c' out] eqn:E.
  simpl. rewrite tag16_slice, app_nil_r. reflexivity.
Qed.

Lemma clientOut_later this iv buffer c :
  _isHandshakeDone this = true -> _cipher this = Some c ->
  clientOut iv buffer this =
  (Ok (cipher_update c buffer).2,
   set_cipher (Some (cipher_update c buffer).1) this).
Proof.
  intros Hdone Hc.
  destruct this as [done host port name key c0 d]; simpl in *; subst.
  unfold clientOut, encrypt, bind, get, get_object, modify, ret; simpl.
  by destruct (cipher_update c buffer).
Qed.

Lemma serverOut_ok this buffer c :
  _cipher this = Some c ->
  serverOut buffer this =
  (Ok (cipher_update c buffer).2,
   set_cipher (Some (cipher_update c buffer).1) this).
Proof.
  intros Hc.
  destruct this as [done host port name key c0 d]; simpl in *; subst.
  unfold serverOut, encrypt, bind, get, get_object, modify, ret; simpl.
  by destruct (cipher_update c buffer).
Qed.

Lemma clientIn_ok this buffer d :
  _decipher this = Some d ->
  clientIn buffer this =
  (Ok (decipher_update d buffer).2,
   set_decipher (Some (decipher_update d buffer).1) this).
Proof.
  intros Hd.
  destruct this as [done host port name key c d0]; simpl in *; subst.
  unfold clientIn, decrypt, bind, get, get_object, modify, ret; simpl.
  by destruct (decipher_update d buffer).
Qed.

Lemma serverIn_later this buffer d :
  _isHandshakeDone this = true -> _decipher this = Some d ->
  serverIn buffer this =
  (Ok (Return (decipher_update d buffer).2),
   set_decipher (Some (decipher_update d buffer).1) this).
Proof.
  intros Hdone Hd.
  destruct this as [done host port name key c d0]; simpl in *; subst.
  unfold serverIn, decrypt, bind, get, get_object, modify, ret; simpl.
  by destruct (decipher_update d buffer).
Qed.

(** A chunk shorter than 37 bytes: [fail] and nothing else. *)
Lemma serverIn_short this buffer :
  _isHandshakeDone this = false -> Buffer.length buffer < 37 ->
  serverIn buffer this =
  (Ok (Fail (unexpected_buffer_length_1 (Buffer.length buffer) buffer)), this).
Proof.
  intros Hdone Hlen.
  unfold serverIn, bind, get, ret. rewrite Hdone. simpl.
  destruct (Z.ltb_spec (Buffer.length buffer) 37); [done|lia].
Qed.

(** The tail of a chunk of at least 37 bytes is not empty. *)
Lemma decrypted_tail_length method key chunk :
  List.length (decrypted_tail method key chunk) = (List.length chunk - 32)%nat.
Proof.
  unfold decrypted_tail. rewrite decipher_update_length.
  rewrite Buffer_slice_from_drop by lia. by rewrite length_drop.
Qed.

(** A chunk of at least 37 bytes: the three ways the handshake code
    ends, after it has replaced the cipher and the decipher. *)
Lemma serverIn_long this chunk k a tail :
  _isHandshakeDone this = false -> _key this = Some k ->
  37 <= Buffer.length chunk ->
  decrypted_tail (_cipherName this) k chunk = a :: tail ->
  let alen := byte.unsigned a in
  serverIn chunk this =
  (if Buffer.length chunk <=? 35 + alen then
     Ok (Fail (unexpected_buffer_length_2 (Buffer.length chunk) chunk))
   else if bool_decide (tag16 k (Buffer.slice chunk 32 (35 + alen))
                        = Buffer.slice chunk 16 32) then
     match Buffer.readUInt16BE (Buffer.slice (a :: tail) (alen + 1) (alen + 3)) with
     | Some port =>
         Ok (Broadcast
               {| targetAddress :=
                    {| host := toString (Buffer.slice (a :: tail) 1 (alen + 1));
                       port := port |};
                  onConnected :=
                    {| captured_data := Buffer.slice_from (a :: tail) (alen + 3) |} |})
     | None => Throw RangeError
     end
   else
     Ok (Fail (unexpected_HMAC_SHA1
                 (Buffer.slice chunk 16 32)
                 (tag16 k (Buffer.slice chunk 32 (35 + alen))))),
   server_after this k chunk).
Proof.
  intros Hdone Hk Hlen Htail alen. subst alen.
  unfold decrypted_tail in Htail.
  destruct this as [done host port name key c d]; simpl in *; subst.
  unfold serverIn, initialize_cipher, decrypt, bind, get, get_object, modify,
    ret, throw, server_after, IV_LEN; simpl.
  destruct (Z.ltb_spec (Buffer.length chunk) 37); [lia|].
  destruct (decipher_update _ _) as [d' out] eqn:E. simpl in Htail. subst out.
  simpl. rewrite E. simpl. rewrite !tag16_slice.
  destruct (Buffer.length chunk <=? 35 + byte.unsigned a); [done|].
  destruct (bool_decide _); simpl; [|done].
  by destruct (Buffer.readUInt16BE _).
Qed.

End PresetFacts.

(** ** The layout of a frame *)

Lemma Buffer_slice_app3 (a b c : bytes) (s e : Z) :
  s = Buffer.length a -> e = Buffer.length a + Buffer.length b ->
  Buffer.slice (a ++ b ++ c) s e = b.
Proof.
  intros -> ->. unfold Buffer.length.
  rewrite Buffer_slice_take_drop by lia.
  rewrite drop_app_length' by lia. apply take_app_length'. lia.
Qed.

Lemma Buffer_slice_from_app (a b : bytes) (s : Z) :
  s = Buffer.length a -> Buffer.slice_from (a ++ b) s = b.
Proof.
  intros ->. unfold Buffer.length.
  rewrite Buffer_slice_from_drop by lia. apply drop_app_length'. lia.
Qed.

Lemma Buffer_slice_app_skip (a b : bytes) (s e : Z) :
  s = Buffer.length a -> s <= e ->
  Buffer.slice (a ++ b) s e = take (Z.to_nat (e - s)) b.
Proof.
  intros -> He. unfold Buffer.length in *.
  rewrite Buffer_slice_take_drop by lia.
  rewrite drop_app_length' by lia. f_equal. lia.
Qed.

Section FrameFacts.

Context `{Node} `{!NodeLaws} `{Utils} `{!UtilsLaws}.

Import Preset.

Variables (iv tag wire : bytes).
Hypothesis iv_length : List.length iv = 16%nat.
Hypothesis tag_length : List.length tag = 16%nat.

Lemma frame_length :
  Buffer.length (iv ++ tag ++ wire) = 32 + Buffer.length wire.
Proof. rewrite !Buffer_length_app. unfold Buffer.length. lia. Qed.

Lemma frame_iv : Buffer.slice (iv ++ tag ++ wire) 0 16 = iv.
Proof.
  apply (Buffer_slice_app3 [] iv (tag ++ wire)); unfold Buffer.length; simpl; lia.
Qed.

Lemma frame_tag : Buffer.slice (iv ++ tag ++ wire) 16 32 = tag.
Proof. apply Buffer_slice_app3; unfold Buffer.length; lia. Qed.

Lemma frame_wire : Buffer.slice_from (iv ++ tag ++ wire) 32 = wire.
Proof.
  rewrite app_assoc. apply Buffer_slice_from_app.
  unfold Buffer.length. rewrite length_app. lia.
Qed.

Lemma frame_mac_region (n : Z) :
  0 <= n ->
  Buffer.slice (iv ++ tag ++ wire) 32 (35 + n) = take (Z.to_nat (3 + n)) wire.
Proof.
  intros Hn. rewrite app_assoc, Buffer_slice_app_skip.
  - f_equal. lia.
  - unfold Buffer.length. rewrite length_app. lia.
  - lia.
Qed.

End FrameFacts.

(** ** The cipher and the decipher of the two sides *)

Section CipherFacts.

Context `{Node} `{!NodeLaws}.

(** Deciphering a prefix of what a cipher produced gives the same
    prefix of the plaintext, and the rest gives the rest. *)
Lemma decipher_prefix method key iv plaintext wire1 wire2 :
  (cipher_update (createCipheriv method key iv) plaintext).2 = wire1 ++ wire2 ->
  let d := createDecipheriv method key iv in
  (decipher_update d wire1).2 = take (List.length wire1) plaintext /\
  (decipher_update (decipher_update d wire1).1 wire2).2
  = drop (List.length wire1) plaintext.
Proof.
  intros Hw d.
  pose proof (decipher_cipher _ _ plaintext (in_sync_create method key iv)) as Hd.
  rewrite Hw, decipher_update_app in Hd. simpl in Hd. fold d in Hd.
  pose proof (decipher_update_length d wire1) as Hl.
  rewrite <- Hd, <- Hl. split.
  - by rewrite take_app_length.
  - by rewrite drop_app_length.
Qed.

End CipherFacts.

(** ** The handshake *)

Section HandshakeFacts.

Context `{Node} `{!NodeLaws} `{Utils} `{!UtilsLaws}.

Import Preset.

Lemma header_length host port :
  List.length (header host port) = (1 + List.length host + List.length port)%nat.
Proof. unfold header. simpl. rewrite length_app. lia. Qed.

Lemma StreamEncrypt_length method key iv plaintext :
  List.length (StreamEncrypt method key iv plaintext) = List.length plaintext.
Proof. apply cipher_update_length. Qed.

Lemma byte_of_length (host : bytes) :
  Buffer.length host <= 255 ->
  byte.unsigned (byte.of_Z (Buffer.length host)) = Buffer.length host.
Proof.
  intros Hh. rewrite byte.unsigned_of_Z. unfold byte.wrap.
  apply Z.mod_small. pose proof (Buffer_length_nonneg host). lia.
Qed.

(** [serverIn] given the first bytes of a frame, as long as they hold
    the whole address header and one byte more: it broadcasts the
    address and captures the data that came with it. *)
Lemma serverIn_accepts_prefix server method key iv host hi lo data wire1 wire2 :
  server_ready server method key ->
  List.length iv = 16%nat -> Buffer.length host <= 255 ->
  StreamEncrypt method key iv (header host [hi; lo] ++ data) = wire1 ++ wire2 ->
  (5 <= List.length wire1)%nat ->
  (3 + List.length host < List.length wire1)%nat ->
  let chunk :=
    iv ++ tag16 key (take (3 + List.length host) (wire1 ++ wire2)) ++ wire1 in
  serverIn chunk server =
  (Ok (Broadcast
         {| targetAddress :=
              {| Preset.host := toString host;
                 Preset.port := byte.unsigned hi * 256 + byte.unsigned lo |};
            onConnected :=
              {| captured_data :=
                   take (List.length wire1 - (3 + List.length host)) data |} |}),
   server_after server key chunk).
Proof.
  intros (Hdone & Hm & Hk) Hiv Hh Hw H5 Hlen chunk.
  pose proof (tag16_length key (take (3 + List.length host) (wire1 ++ wire2))) as Ht.
  set (tag := tag16 key _) in *.
  set (a := byte.of_Z (Buffer.length host)).
  set (data1 := take (List.length wire1 - (3 + List.length host)) data).
  assert (decrypted_tail (_cipherName server) key chunk
          = a :: host ++ [hi; lo] ++ data1) as Htail.
  { unfold decrypted_tail, chunk. rewrite frame_iv, frame_wire, Hm by done.
    destruct (decipher_prefix method key iv _ wire1 wire2 Hw) as [-> _].
    rewrite take_app_ge by (rewrite header_length; simpl; lia).
    rewrite header_length. unfold header, data1. simpl.
    rewrite <- app_assoc. simpl. do 5 f_equal. lia. }
  assert (Buffer.length chunk = 32 + Buffer.length wire1) as Hclen
    by (unfold chunk; by rewrite frame_length).
  assert (Buffer.slice chunk 16 32 = tag) as Hctag
    by (unfold chunk; by rewrite frame_tag).
  assert (Buffer.slice chunk 32 (35 + Buffer.length host) = take (3 + List.length host) (wire1 ++ wire2))
    as Hcmac.
  { unfold chunk. rewrite frame_mac_region by (done || apply Buffer_length_nonneg).
    replace (Z.to_nat (3 + Buffer.length host)) with (3 + List.length host)%nat
      by (unfold Buffer.length; lia).
    by rewrite take_app_le by lia. }
  clearbody chunk.
  rewrite (serverIn_long server chunk key a _ Hdone Hk) by
    (try exact Htail; rewrite Hclen; unfold Buffer.length; lia).
  assert (byte.unsigned a = Buffer.length host) as Ha
    by (by apply byte_of_length).
  rewrite !Ha, Hclen, Hctag, Hcmac.
  destruct (Z.leb_spec (32 + Buffer.length wire1) (35 + Buffer.length host));
    [unfold Buffer.length in *; lia|].
  fold tag. rewrite bool_decide_eq_true_2 by done.
  rewrite (Buffer_slice_app3 (a :: host) [hi; lo] data1)
    by (unfold Buffer.length; simpl; lia).
  simpl Buffer.readUInt16BE. cbv iota.
  rewrite (Buffer_slice_app3 [a] host ([hi; lo] ++ data1))
    by (unfold Buffer.length; simpl; lia).
  replace (a :: host ++ [hi; lo] ++ data1)
    with ((a :: host ++ [hi; lo]) ++ data1) at 1
    by (simpl; by rewrite <- app_assoc).
  rewrite Buffer_slice_from_app; [done|].
  unfold Buffer.length. simpl. rewrite length_app. simpl. lia.
Qed.

End HandshakeFacts.

Section FrameConstruction.

Context `{Node} `{!NodeLaws} `{Utils} `{!UtilsLaws}.

Import Preset.

(** The first [clientOut] with a chunk that is not empty. *)
Lemma clientOut_frame this method key iv host port data :
  client_ready this method key host port ->
  Buffer.length host <= 255 -> data <> [] ->
  clientOut iv data this =
  (Ok (handshake_frame method key iv host port data),
   client_after this key iv (header host port ++ data)).
Proof.
  intros (Hdone & Hm & Hk & Hh & Hp) Hlen Hdata.
  rewrite (clientOut_first this iv data host port key) by done.
  rewrite Hm. unfold handshake_frame.
  rewrite Buffer_slice_0_neg
    by (destruct data; [done|unfold Buffer.length; simpl; lia]).
  set (encBuf := StreamEncrypt _ _ _ _).
  replace (Z.to_nat (Buffer.length encBuf - Buffer.length data))
    with (List.length encBuf - List.length data)%nat
    by (unfold Buffer.length; lia).
  reflexivity.
Qed.

(** The first [clientOut] with an empty chunk: the tag is computed
    over the empty buffer. *)
Lemma clientOut_empty this method key iv host port :
  client_ready this method key host port ->
  Buffer.length host <= 255 ->
  clientOut iv [] this =
  (Ok (iv ++ tag16 key [] ++ StreamEncrypt method key iv (header host port)),
   client_after this key iv (header host port)).
Proof.
  intros (Hdone & Hm & Hk & Hh & Hp) Hlen.
  rewrite (clientOut_first this iv [] host port key) by done.
  rewrite Hm, app_nil_r. change (Buffer.length []) with 0.
  by rewrite Buffer_slice_0_0.
Qed.

(** The encrypted address header is the first [3 + ALEN] bytes of the
    ciphertext. *)
Lemma enc_addr_header method key iv host port data :
  let ciphertext := StreamEncrypt method key iv (header host port ++ data) in
  take (List.length ciphertext - List.length data) ciphertext
  = take (List.length (header host port)) ciphertext.
Proof.
  intros ciphertext. f_equal. unfold ciphertext.
  rewrite StreamEncrypt_length, length_app. lia.
Qed.

End FrameConstruction.

(** ** A client and a server after the handshake *)

Section RelayFacts.

Context `{Node} `{!NodeLaws} `{Utils} `{!UtilsLaws}.

Import Preset Session.

Lemma relay_linked msgs : forall client server,
  linked client server -> relay client server msgs = Some msgs.
Proof.
  induction msgs as [|[chunk|chunk] msgs IH];
    intros client server (Hc & Hs & (c & d & Hcc & Hsd & Hfw) & (c' & d' & Hsc & Hcd & Hbw)).
  - done.
  - simpl. rewrite (clientOut_later client [] chunk c) by done.
    rewrite (serverIn_later server _ d) by done.
    rewrite decipher_cipher by done.
    rewrite IH; [done|].
    destruct client, server; simpl in *. repeat split; try done.
    + eexists _, _. repeat split. by apply in_sync_update.
    + eauto.
  - simpl. rewrite (serverOut_ok server chunk c') by done.
    rewrite (clientIn_ok client _ d') by done.
    rewrite decipher_cipher by done.
    rewrite IH; [done|].
    destruct client, server; simpl in *. repeat split; try done.
    + eauto.
    + eexists _, _. repeat split. by apply in_sync_update.
Qed.

Lemma handshake_linked client server method key iv host hi lo data :
  client_ready client method key host [hi; lo] ->
  server_ready server method key ->
  List.length iv = 16%nat -> 1 <= Buffer.length host <= 255 -> data <> [] ->
  exists client' server',
    handshake client server iv data =
    Some ({| Preset.host := toString host;
             Preset.port := byte.unsigned hi * 256 + byte.unsigned lo |},
          data, client', server') /\
    linked client' server'.
Proof.
  intros Hc Hs Hiv Hh Hdata. unfold handshake.
  rewrite (clientOut_frame client method key iv host [hi; lo] data) by (done || lia).
  unfold handshake_frame.
  set (wire := StreamEncrypt method key iv (header host [hi; lo] ++ data)).
  assert (List.length wire = (3 + List.length host + List.length data)%nat) as Hw.
  { unfold wire. rewrite StreamEncrypt_length, length_app, header_length.
    simpl. lia. }
  assert (0 < List.length data)%nat by (destruct data; [done|simpl; lia]).
  replace (List.length wire - List.length data)%nat
    with (3 + List.length host)%nat by lia.
  pose proof (serverIn_accepts_prefix server method key iv host hi lo data wire [])
    as Hsrv.
  rewrite app_nil_r in Hsrv. cbv zeta in Hsrv.
  rewrite Hsrv; try done; try (unfold Buffer.length in *; lia).
  clear Hsrv. simpl.
  eexists _, _. split.
  - rewrite take_ge by lia. reflexivity.
  - destruct Hc as (Hcd & Hcm & Hck & _), Hs as (Hsd & Hsm & Hsk).
    destruct client, server; simpl in *; subst.
    repeat split.
    + eexists _, _. repeat split.
      rewrite frame_iv, frame_wire by (done || apply tag16_length).
      apply in_sync_update, in_sync_create.
    + eexists _, _. repeat split.
      rewrite frame_iv by (done || apply tag16_length).
      apply in_sync_create.
Qed.

End RelayFacts.

(** ** [serverIn] while the handshake is not done *)

Section ServerFacts.

Context `{Node} `{!NodeLaws} `{Utils} `{!UtilsLaws}.

Import Preset.

Lemma readUInt16BE_slice (b : bytes) (s : Z) :
  0 <= s -> s + 2 <= Buffer.length b ->
  exists n, Buffer.readUInt16BE (Buffer.slice b s (s + 2)) = Some n.
Proof.
  intros Hs Hlen. rewrite Buffer_slice_take_drop by lia.
  replace (Z.to_nat (s + 2) - Z.to_nat s)%nat with 2%nat by lia.
  assert (2 <= List.length (drop (Z.to_nat s) b))%nat as Hd
    by (rewrite length_drop; unfold Buffer.length in Hlen; lia).
  destruct (drop (Z.to_nat s) b) as [|hi [|lo rest]]; simpl in Hd; try lia.
  eexists. reflexivity.
Qed.

Lemma server_after_ready server method key chunk :
  server_ready server method key ->
  server_ready (server_after server key chunk) method key.
Proof. intros (? & ? & ?). by destruct server. Qed.

Lemma server_after_twice server key chunk1 chunk2 :
  server_after (server_after server key chunk1) key chunk2
  = server_after server key chunk2.
Proof. by destruct server. Qed.

(** A chunk of at least 37 bytes: [serverIn] replaces the cipher and
    the decipher, and either fails or broadcasts. *)
Lemma serverIn_handshake_outcome server method key chunk :
  server_ready server method key ->
  37 <= Buffer.length chunk ->
  exists outcome,
    serverIn chunk server = (Ok outcome, server_after server key chunk) /\
    ((exists reason, outcome = Fail reason) \/
     (exists action, outcome = Broadcast action)).
Proof.
  intros (Hdone & Hm & Hk) Hlen.
  pose proof (decrypted_tail_length (_cipherName server) key chunk) as Htl.
  destruct (decrypted_tail (_cipherName server) key chunk) as [|a tail] eqn:Htail.
  { simpl in Htl. unfold Buffer.length in Hlen. lia. }
  rewrite (serverIn_long server chunk key a tail) by done.
  destruct (Z.leb_spec (Buffer.length chunk) (35 + byte.unsigned a)).
  { eexists. split; [done|]. left. by eexists. }
  destruct (bool_decide _).
  - pose proof (byte.unsigned_range a).
    destruct (readUInt16BE_slice (a :: tail) (byte.unsigned a + 1)) as [n Hn].
    { lia. }
    { unfold Buffer.length in *. rewrite Htl. lia. }
    replace (byte.unsigned a + 1 + 2) with (byte.unsigned a + 3) in Hn by lia.
    rewrite Hn. eexists. split; [done|]. right. by eexists.
  - eexists. split; [done|]. left. by eexists.
Qed.

(** The tail [serverIn] decrypts from the first bytes of a frame. *)
Lemma decrypted_tail_prefix method key iv tag plaintext wire1 wire2 :
  List.length iv = 16%nat -> List.length tag = 16%nat ->
  StreamEncrypt method key iv plaintext = wire1 ++ wire2 ->
  decrypted_tail method key (iv ++ tag ++ wire1)
  = take (List.length wire1) plaintext.
Proof.
  intros Hiv Htag Hw. unfold decrypted_tail.
  rewrite frame_iv, frame_wire by done.
  by destruct (decipher_prefix method key iv plaintext wire1 wire2 Hw) as [-> _].
Qed.

(** [serverIn] given the first bytes of a frame when they stop inside
    the address header or right after it. *)
Lemma serverIn_rejects_prefix server method key iv tag host port data wire1 wire2 :
  server_ready server method key ->
  List.length iv = 16%nat -> List.length tag = 16%nat ->
  Buffer.length host <= 255 ->
  StreamEncrypt method key iv (header host port ++ data) = wire1 ++ wire2 ->
  (5 <= List.length wire1 <= 3 + List.length host)%nat ->
  let chunk := iv ++ tag ++ wire1 in
  serverIn chunk server =
  (Ok (Fail (unexpected_buffer_length_2 (Buffer.length chunk) chunk)),
   server_after server key chunk).
Proof.
  intros (Hdone & Hm & Hk) Hiv Htag Hh Hw Hlen chunk.
  assert (Buffer.length chunk = 32 + Buffer.length wire1) as Hclen
    by (unfold chunk; by rewrite frame_length).
  assert (exists tail, decrypted_tail (_cipherName server) key chunk
                       = byte.of_Z (Buffer.length host) :: tail) as [tail Htail].
  { unfold chunk. rewrite Hm.
    rewrite (decrypted_tail_prefix method key iv tag _ wire1 wire2) by done.
    unfold header. destruct wire1; simpl in *; [lia|]. by eexists. }
  rewrite (serverIn_long server chunk key _ tail Hdone Hk)
    by (done || unfold Buffer.length in *; lia).
  rewrite byte_of_length by done. rewrite Hclen.
  destruct (Z.leb_spec (32 + Buffer.length wire1) (35 + Buffer.length host));
    [by rewrite <- Hclen|unfold Buffer.length in *; lia].
Qed.

End ServerFacts.

(** ** A frame with one bit flipped *)

Section BitFlipFacts.

Context `{Node} `{!NodeLaws} `{Utils} `{!UtilsLaws}.

Import Preset.

(** What [serverIn] authenticates in an untouched frame is the
    encrypted address header. *)
Lemma authenticated_frame method key iv host port data :
  List.length iv = 16%nat -> Buffer.length host <= 255 ->
  let wire := StreamEncrypt method key iv (header host port ++ data) in
  authenticated method key (handshake_frame method key iv host port data)
  = take (3 + List.length host) wire.
Proof.
  intros Hiv Hh wire. unfold authenticated, handshake_frame. fold wire.
  set (tag := tag16 key _).
  assert (List.length tag = 16%nat) as Htag by apply tag16_length.
  rewrite (decrypted_tail_prefix method key iv tag (header host port ++ data)
             wire []) by (done || by rewrite app_nil_r).
  unfold wire at 1. rewrite StreamEncrypt_length, take_ge by done.
  unfold header. simpl. rewrite byte_of_length by done.
  rewrite frame_mac_region by (done || apply Buffer_length_nonneg).
  f_equal. unfold Buffer.length. lia.
Qed.

(** A frame is [IV || tag || ciphertext], and a flip past the tag
    touches the ciphertext only. *)
Lemma flipped_frame method key iv host hi lo data pos bit :
  List.length iv = 16%nat -> (32 <= pos)%nat ->
  let wire := StreamEncrypt method key iv (header host [hi; lo] ++ data) in
  let tag := tag16 key (take (3 + List.length host) wire) in
  handshake_frame method key iv host [hi; lo] data = iv ++ tag ++ wire /\
  Buffer.flip_bit (handshake_frame method key iv host [hi; lo] data) pos bit
  = iv ++ tag ++ alter (Buffer.flip_byte bit) (pos - 32)%nat wire.
Proof.
  intros Hiv Hpos wire tag.
  assert (handshake_frame method key iv host [hi; lo] data = iv ++ tag ++ wire)
    as ->.
  { unfold handshake_frame. rewrite enc_addr_header.
    fold wire. rewrite header_length. unfold tag.
    by replace (1 + List.length host + List.length [hi; lo])%nat
      with (3 + List.length host)%nat by (simpl; lia). }
  split; [done|].
  unfold Buffer.flip_bit. rewrite !app_assoc.
  replace pos with (List.length (iv ++ tag) + (pos - 32))%nat at 1
    by (rewrite length_app; unfold tag; rewrite tag16_length; lia).
  by rewrite alter_app_r.
Qed.

(** With one bit flipped in the encrypted address region, the bytes
    [serverIn] authenticates are not the ones the tag was computed
    over. *)
Lemma authenticated_flipped method key iv host hi lo data pos bit :
  List.length iv = 16%nat -> Buffer.length host <= 255 -> data <> [] ->
  (32 <= pos < 35 + List.length host)%nat -> 0 <= bit < 8 ->
  let frame := handshake_frame method key iv host [hi; lo] data in
  authenticated method key (Buffer.flip_bit frame pos bit)
  <> authenticated method key frame.
Proof.
  intros Hiv Hh Hdata Hpos Hbit frame. unfold frame.
  rewrite (authenticated_frame method key iv host [hi; lo] data Hiv Hh).
  destruct (flipped_frame method key iv host hi lo data pos bit Hiv) as [_ ->];
    [lia|].
  set (wire := StreamEncrypt method key iv (header host [hi; lo] ++ data)).
  set (tag := tag16 key (take (3 + List.length host) wire)).
  set (i := (pos - 32)%nat).
  set (wire' := alter (Buffer.flip_byte bit) i wire).
  assert (List.length tag = 16%nat) as Htag by apply tag16_length.
  assert (List.length wire = (3 + List.length host + List.length data)%nat)
    as Hwlen.
  { unfold wire.
    rewrite StreamEncrypt_length, length_app, header_length. simpl. lia. }
  assert (0 < List.length data)%nat by (destruct data; [done|simpl; lia]).
  assert (List.length wire' = List.length wire) as Hwlen'
    by apply length_alter.
  unfold authenticated.
  pose proof (decrypted_tail_length method key (iv ++ tag ++ wire')) as Htl.
  destruct (decrypted_tail method key (iv ++ tag ++ wire')) as [|a tail].
  { simpl in Htl. rewrite !length_app in Htl. lia. }
  simpl. pose proof (byte.unsigned_range a) as Ha.
  rewrite frame_mac_region by (done || lia).
  intros Heq.
  assert (Z.to_nat (3 + byte.unsigned a) = (3 + List.length host)%nat) as Hn.
  { apply (f_equal List.length) in Heq. rewrite !length_take in Heq. lia. }
  rewrite Hn in Heq.
  apply (f_equal (fun l => l !! i)) in Heq.
  rewrite !lookup_take_lt in Heq by (unfold i; lia).
  unfold wire' in Heq. rewrite list_lookup_alter_eq in Heq.
  destruct (wire !! i) as [x|] eqn:Hx.
  - simpl in Heq. injection Heq as Hflip. by apply (flip_byte_neq bit x).
  - apply lookup_ge_None in Hx. unfold i in Hx. lia.
Qed.

(** Such a frame makes the server fail, unless the 16-byte tags of
    these two different byte strings coincide. *)
Lemma serverIn_flipped server method key iv host hi lo data pos bit :
  server_ready server method key ->
  List.length iv = 16%nat -> Buffer.length host <= 255 -> data <> [] ->
  (32 <= pos < 35 + List.length host)%nat -> 0 <= bit < 8 ->
  let frame := handshake_frame method key iv host [hi; lo] data in
  let flipped := Buffer.flip_bit frame pos bit in
  (exists reason, (serverIn flipped server).1 = Ok (Fail reason)) \/
  tag16 key (authenticated method key flipped)
  = tag16 key (authenticated method key frame).
Proof.
  intros Hs Hiv Hh Hdata Hpos Hbit frame flipped.
  assert (Buffer.slice flipped 16 32 = tag16 key (authenticated method key frame))
    as Htag.
  { unfold frame at 1.
    rewrite (authenticated_frame method key iv host [hi; lo] data Hiv Hh).
    unfold flipped, frame.
    destruct (flipped_frame method key iv host hi lo data pos bit Hiv) as [_ ->];
      [lia|].
    by rewrite frame_tag by (done || apply tag16_length). }
  destruct (Z.ltb_spec (Buffer.length flipped) 37) as [Hshort|Hlong].
  { left. destruct Hs as (Hdone & _). rewrite serverIn_short by done.
    by eexists. }
  destruct Hs as (Hdone & Hm & Hk).
  pose proof (decrypted_tail_length method key flipped) as Htl.
  destruct (decrypted_tail method key flipped) as [|a tail] eqn:Htail.
  { simpl in Htl. unfold Buffer.length in Hlong. lia. }
  assert (authenticated method key flipped
          = Buffer.slice flipped 32 (35 + byte.unsigned a)) as ->
    by (unfold authenticated; by rewrite Htail).
  rewrite <- Hm in Htail.
  rewrite (serverIn_long server _ key a tail Hdone Hk Hlong Htail).
  simpl fst.
  destruct (Z.leb_spec (Buffer.length flipped) (35 + byte.unsigned a));
    [left; by eexists|].
  rewrite Htag.
  destruct (decide (tag16 key (Buffer.slice flipped 32 (35 + byte.unsigned a))
                    = tag16 key (authenticated method key frame)))
    as [Heq|Hneq]; [by right|].
  left. rewrite bool_decide_eq_false_2 by done. by eexists.
Qed.

End BitFlipFacts.



(** ** The handshake flag over the life of an instance *)

Section FlagFacts.

Context `{Node} `{Utils}.

Import Preset Session.

Lemma encrypt_flag buffer this :
  _isHandshakeDone (encrypt buffer this).2 = _isHandshakeDone this.
Proof.
  unfold encrypt, bind, get_object, modify, ret.
  destruct (_cipher this); simpl; [|done].
  by destruct (cipher_update _ _).
Qed.

Lemma decrypt_flag buffer this :
  _isHandshakeDone (decrypt buffer this).2 = _isHandshakeDone this.
Proof.
  unfold decrypt, bind, get_object, modify, ret.
  destruct (_decipher this); simpl; [|done].
  by destruct (decipher_update _ _).
Qed.

Lemma clientOut_keeps_flag iv buffer this :
  _isHandshakeDone this = true ->
  _isHandshakeDone (clientOut iv buffer this).2 = true.
Proof.
  intros Hdone. pose proof (encrypt_flag buffer this) as He.
  unfold clientOut, bind, get in *. rewrite Hdone. simpl. congruence.
Qed.

Lemma serverIn_keeps_flag buffer this :
  _isHandshakeDone this = true ->
  _isHandshakeDone (serverIn buffer this).2 = true.
Proof.
  intros Hdone. pose proof (decrypt_flag buffer this) as Hd.
  unfold serverIn, bind, get, ret in *. rewrite Hdone. simpl.
  destruct (decrypt buffer this) as [[out|e] this']; simpl in *; congruence.
Qed.

(** No call resets the flag. *)
Lemma step_keeps_flag (i : Instance) (c : Call) :
  _isHandshakeDone (this i) = true ->
  _isHandshakeDone (this (step i c)) = true.
Proof.
  intros Hdone. destruct c as [iv b|b|b|b|n]; simpl.
  - by apply clientOut_keeps_flag.
  - pose proof (serverIn_keeps_flag b _ Hdone).
    by destruct (serverIn b (this i)).
  - unfold serverOut. by rewrite encrypt_flag.
  - unfold clientIn. by rewrite decrypt_flag.
  - by destruct (handed_out i !! n).
Qed.

Lemma flags_cons i calls :
  flags i calls =
  _isHandshakeDone (this i) ::
  match calls with [] => [] | c :: calls => flags (step i c) calls end.
Proof. by destruct calls. Qed.

(** Once the flag is set, it is set after every later call. *)
Lemma flags_after_done calls : forall i,
  _isHandshakeDone (this i) = true ->
  flags i calls = replicate (S (List.length calls)) true.
Proof.
  induction calls as [|c calls IH]; intros i Hdone.
  - unfold flags. simpl. by rewrite Hdone.
  - rewrite flags_cons, Hdone, (IH (step i c)) by (by apply step_keeps_flag).
    reflexivity.
Qed.

Lemma transitions_cons from to a b l :
  transitions from to (a :: b :: l) =
  ((if bool_decide (a = from) && bool_decide (b = to) then 1 else 0)
   + transitions from to (b :: l))%nat.
Proof. reflexivity. Qed.

Lemma transitions_all_true from to n :
  from = false \/ to = false ->
  transitions from to (replicate n true) = 0%nat.
Proof.
  intros Hft. induction n as [|[|n] IH]; [done..|].
  change (replicate (S (S n)) true) with (true :: true :: replicate n true).
  rewrite transitions_cons.
  change (true :: replicate n true) with (replicate (S n) true).
  rewrite IH. destruct Hft as [-> | ->]; [by destruct to | by destruct from].
Qed.

Lemma flags_transitions calls : forall i,
  (transitions false true (flags i calls) <= 1)%nat /\
  transitions true false (flags i calls) = 0%nat.
Proof.
  induction calls as [|c calls IH]; intros i; [simpl; lia|].
  destruct (_isHandshakeDone (this i)) eqn:Hi.
  - rewrite flags_after_done by done.
    rewrite !transitions_all_true by auto. lia.
  - destruct (IH (step i c)) as [IH1 IH2].
    rewrite flags_cons, Hi.
    rewrite (flags_cons (step i c)) in *.
    rewrite !transitions_cons.
    destruct (_isHandshakeDone (this (step i c))) eqn:Hn.
    + rewrite <- Hn, <- flags_cons.
      rewrite flags_after_done by done.
      rewrite !transitions_all_true by auto. rewrite Hn. simpl. lia.
    + set (t1 := transitions false true _) in *.
      set (t2 := transitions true false _) in *.
      simpl. lia.
Qed.

(** Every name of [ciphers] has a key length. *)
Lemma key_length_ciphers method :
  method ∈ ciphers -> exists n, key_length method = Some n /\ n ∈ [16; 24; 32].
Proof.
  unfold ciphers. rewrite !elem_of_cons, elem_of_nil.
  intros H'; repeat (destruct H' as [->|H']); try done;
    eexists; (split; [reflexivity|]); set_solver.
Qed.

(** What the constructor returns on the client and on the server. *)
Lemma constructor_ready is_client password type host port method this :
  password <> EmptyString ->
  constructor is_client (Some password) type host port (Some method) = Ok this ->
  method ∈ ciphers /\
  exists n,
    key_length method = Some n /\
    server_ready this method (EVP_BytesToKey password n IV_LEN) /\
    (is_client = true -> type <> ATYP_V4 -> type <> ATYP_V6 ->
     client_ready this method (EVP_BytesToKey password n IV_LEN) host port).
Proof.
  unfold constructor. intros Hpw Hc.
  destruct method as [|a m]; [done|].
  destruct (decide (String a m ∈ ciphers)) as [Hin|Hout].
  - rewrite bool_decide_eq_true_2 in Hc by done. simpl in Hc.
    split; [done|].
    destruct (key_length_ciphers _ Hin) as (n & Hn & _).
    exists n. rewrite Hn in Hc. split; [done|].
    destruct password as [|p pw]; [done|].
    injection Hc as <-. split; [by repeat split|].
    intros -> Hv4 Hv6. unfold client_ready. simpl.
    destruct (Z.eqb_spec type ATYP_V4); [done|].
    destruct (Z.eqb_spec type ATYP_V6); [done|].
    by repeat split.
  - rewrite bool_decide_eq_false_2 in Hc by done. done.
Qed.

Lemma constructor_flag is_client key type host port method this :
  constructor is_client key type host port method = Ok this ->
  _isHandshakeDone this = false.
Proof.
  unfold constructor. intros Hc.
  destruct method as [[|a m]|]; try done.
  destruct (negb _); [done|]. by injection Hc as <-.
Qed.

End FlagFacts.

(** ** [obtainConfig] *)

Section BootstrapFacts.

Import Bootstrap.

Variable parseInt : Value -> Z -> Value.
Variable load : string -> Result (gmap string Value).

(** On an array of strings, the callback keeps exactly the entries
    that are not disabled. *)
Lemma filter_servers_strings (names : list string) :
  filter_servers (str <$> names)
  = Ok (str <$> filter (fun name => disabled name = false) names).
Proof.
  induction names as [|name names IH]; [done|].
  rewrite fmap_cons. simpl filter_servers. rewrite IH.
  rewrite filter_cons.
  destruct (decide (disabled name = false)) as [Hd|Hd];
    destruct name as [|c name]; simpl in *; try done.
  - by rewrite Hd.
  - apply not_false_is_true in Hd. by rewrite Hd.
Qed.

(** The object [obtainConfig] assembles from the options. *)
Lemma assembled_servers (host port servers key presets redirect
                         log_level timeout watch profile : Value) :
  let config : gmap string Value :=
    <["host" := host]> (<["port" := port]> (<["servers" := servers]>
    (<["key" := key]> (<["presets" := presets]> (<["redirect" := redirect]>
    (<["log_level" := log_level]> (<["timeout" := timeout]>
    (<["watch" := watch]> (<["profile" := profile]> ∅))))))))) in
  config !! "servers"%string = Some servers.
Proof.
  cbv zeta.
  rewrite !(lookup_insert_ne _ _ "servers"%string) by done.
  apply lookup_insert_eq.
Qed.

Lemma merged_servers (json config : gmap string Value) (servers : Value) :
  config !! "servers"%string = Some servers ->
  prop (json ∪ config) "servers" = default servers (json !! "servers"%string).
Proof.
  intros Hc. unfold prop. rewrite lookup_union, Hc.
  by destruct (json !! "servers"%string).
Qed.

End BootstrapFacts.

(** * The statements of the specification *)

Section Statements.

Context `{Node} `{!NodeLaws} `{Utils} `{!UtilsLaws}.

Import Preset Session.

(** C1 (amended). Round trip: for every method, key, 16-byte IV,
    destination with [1 <= ALEN <= 255] and a two-byte port, every
    first chunk that is not empty and every sequence of later forward
    and backward chunks, the server broadcasts the destination, hands
    the first chunk to [next] once connected, and each later chunk
    comes out of the other side as it went in. *)
Theorem round_trip client server method key iv host hi lo first msgs :
  client_ready client method key host [hi; lo] ->
  server_ready server method key ->
  List.length iv = 16%nat ->
  1 <= Buffer.length host <= 255 ->
  first <> [] ->
  session client server iv first msgs =
  Some ({| Preset.host := toString host;
           Preset.port := byte.unsigned hi * 256 + byte.unsigned lo |},
        first, msgs).
Proof.
  intros Hc Hs Hiv Hh Hfirst. unfold session.
  destruct (handshake_linked client server method key iv host hi lo first)
    as (client' & server' & -> & Hl); try done.
  by rewrite relay_linked.
Qed.

(** C2 (amended). Fragmented handshake: the preset keeps no bytes
    from one [serverIn] call to the next. When a valid handshake frame
    arrives cut in two, a first fragment below 37 bytes fails at once
    and leaves the instance as it was; a first fragment of at least 37
    bytes that does not reach past the address header fails as well;
    and a first fragment that holds the header and at least one byte
    of DATA makes the handshake succeed with the address, the port and
    the DATA bytes it holds, the remaining DATA bytes coming out of the
    next [serverIn] once [onConnected] has run. *)
Theorem fragmented_handshake server method key iv host hi lo data
    fragment1 fragment2 :
  server_ready server method key ->
  List.length iv = 16%nat ->
  Buffer.length host <= 255 ->
  data <> [] ->
  handshake_frame method key iv host [hi; lo] data = fragment1 ++ fragment2 ->
  let n := Buffer.length fragment1 in
  let held := Z.to_nat (n - 35 - Buffer.length host) in
  if n <? 37 then
    serverIn fragment1 server =
    (Ok (Fail (unexpected_buffer_length_1 n fragment1)), server)
  else if n <=? 35 + Buffer.length host then
    (serverIn fragment1 server).1 =
    Ok (Fail (unexpected_buffer_length_2 n fragment1))
  else
    exists server1,
      serverIn fragment1 server =
      (Ok (Broadcast
             {| targetAddress :=
                  {| Preset.host := toString host;
                     Preset.port := byte.unsigned hi * 256 + byte.unsigned lo |};
                onConnected := {| captured_data := take held data |} |}),
       server1) /\
      (serverIn fragment2
         (call_onConnected {| captured_data := take held data |} server1).2).1
      = Ok (Return (drop held data)).
Proof.
  intros Hs Hiv Hh Hdata Hframe n held.
  destruct (Z.ltb_spec n 37) as [Hshort|Hlong].
  { destruct Hs as (Hdone & _). by apply serverIn_short. }
  unfold handshake_frame in Hframe. rewrite enc_addr_header in Hframe.
  set (plaintext := header host [hi; lo] ++ data) in *.
  set (wire := StreamEncrypt method key iv plaintext) in *.
  set (tag := tag16 key _) in *.
  assert (List.length tag = 16%nat) as Htag by apply tag16_length.
  assert (List.length wire = (3 + List.length host + List.length data)%nat)
    as Hwlen.
  { unfold wire, plaintext.
    rewrite StreamEncrypt_length, length_app, header_length. simpl. lia. }
  set (m := (Z.to_nat n - 32)%nat).
  assert (fragment1 = iv ++ tag ++ take m wire /\ fragment2 = drop m wire)
    as [Hf1 Hf2].
  { assert (List.length fragment1 = (32 + m)%nat) as Hn
      by (unfold m, n, Buffer.length in *; lia).
    split.
    - rewrite <- (take_app_length fragment1 fragment2), <- Hframe, Hn.
      rewrite !app_assoc.
      rewrite take_app_add' by (rewrite length_app; lia). done.
    - rewrite <- (drop_app_length fragment1 fragment2), <- Hframe, Hn.
      rewrite !app_assoc.
      rewrite drop_app_add' by (rewrite length_app; lia). done. }
  assert (wire = take m wire ++ drop m wire) as Hsplit
    by (by rewrite take_drop).
  assert (List.length (take m wire) = m) as Hm.
  { rewrite length_take. apply Nat.min_l.
    assert (List.length (fragment1 ++ fragment2)
            = (32 + List.length wire)%nat) as Hall
      by (rewrite <- Hframe, !length_app; lia).
    rewrite length_app in Hall. unfold m, n, Buffer.length in *. lia. }
  assert (Z.of_nat m = n - 32) as Hmn by (unfold m; lia).
  destruct (Z.leb_spec n (35 + Buffer.length host)) as [Hin|Hpast].
  - pose proof (serverIn_rejects_prefix server method key iv tag host [hi; lo]
                  data (take m wire) (drop m wire) Hs Hiv Htag Hh Hsplit) as Hrej.
    cbv zeta in Hrej. rewrite <- Hf1 in Hrej. fold n in Hrej.
    rewrite Hrej; [done|]. unfold Buffer.length in *. lia.
  - pose proof (serverIn_accepts_prefix server method key iv host hi lo data
                  (take m wire) (drop m wire) Hs Hiv Hh Hsplit) as Hacc.
    cbv zeta in Hacc. rewrite <- Hsplit in Hacc.
    replace (take (3 + List.length host) wire)
      with (take (List.length (header host [hi; lo])) wire) in Hacc
      by (by rewrite header_length; f_equal; simpl; lia).
    fold tag in Hacc. rewrite <- Hf1, Hm in Hacc.
    replace (m - (3 + List.length host))%nat with held in Hacc
      by (unfold held, Buffer.length in *; lia).
    rewrite Hacc by (unfold Buffer.length in *; lia).
    eexists. split; [reflexivity|].
    destruct Hs as (Hdone & Hmeth & Hk).
    erewrite serverIn_later; [| |by destruct server]; [|by destruct server].
    simpl. do 2 f_equal.
    rewrite Hf1, frame_iv, frame_wire, Hf2, Hmeth by done.
    destruct (decipher_prefix method key iv plaintext (take m wire) (drop m wire)
                Hsplit) as [_ ->].
    rewrite Hm. unfold plaintext.
    rewrite drop_app_ge by (rewrite header_length; simpl;
                            unfold Buffer.length in *; lia).
    f_equal. rewrite header_length. unfold held, Buffer.length in *.
    simpl. lia.
Qed.

(** C3. HMAC rejection: for a first chunk that passes both length
    checks, [serverIn] computes the HMAC-SHA1 of [chunk[32 .. 35+ALEN]]
    under the key, truncated to 16 bytes, and fails, broadcasting
    nothing, exactly when it differs from [chunk[16 .. 32]]. In
    particular a valid frame with one bit flipped in its encrypted
    address region ([chunk[32 .. 35+ALEN]]) is rejected: the bytes the
    server then authenticates differ from the ones the tag was
    computed over, and the server fails, the only other possibility
    being that the truncated HMACs of these two different byte strings
    collide. *)
Theorem hmac_rejection :
  (forall server method key chunk alen tail,
     server_ready server method key ->
     37 <= Buffer.length chunk ->
     decrypted_tail method key chunk = alen :: tail ->
     35 + byte.unsigned alen < Buffer.length chunk ->
     let hmacTag := Buffer.slice chunk 16 32 in
     let expHmac :=
       tag16 key (Buffer.slice chunk 32 (35 + byte.unsigned alen)) in
     ((exists reason, (serverIn chunk server).1 = Ok (Fail reason))
      <-> expHmac <> hmacTag) /\
     ((exists action, (serverIn chunk server).1 = Ok (Broadcast action))
      <-> expHmac = hmacTag)) /\
  (forall server method key iv host hi lo data pos bit,
     server_ready server method key ->
     List.length iv = 16%nat ->
     Buffer.length host <= 255 ->
     data <> [] ->
     (32 <= pos < 35 + List.length host)%nat ->
     0 <= bit < 8 ->
     let frame := handshake_frame method key iv host [hi; lo] data in
     let flipped := Buffer.flip_bit frame pos bit in
     authenticated method key flipped <> authenticated method key frame /\
     ((exists reason, (serverIn flipped server).1 = Ok (Fail reason)) \/
      tag16 key (authenticated method key flipped)
      = tag16 key (authenticated method key frame))).
Proof.
  split.
  - intros server method key chunk alen tail (Hdone & Hm & Hk) Hlen Htail Hlen2
      hmacTag expHmac.
    rewrite <- Hm in Htail.
    rewrite (serverIn_long server chunk key alen tail Hdone Hk Hlen Htail).
    simpl fst.
    destruct (Z.leb_spec (Buffer.length chunk) (35 + byte.unsigned alen));
      [lia|].
    fold hmacTag expHmac.
    pose proof (byte.unsigned_range alen).
    pose proof (decrypted_tail_length (_cipherName server) key chunk) as Htl.
    rewrite Htail in Htl.
    destruct (readUInt16BE_slice (alen :: tail) (byte.unsigned alen + 1))
      as [port Hport]; [lia|unfold Buffer.length in *; lia|].
    replace (byte.unsigned alen + 1 + 2) with (byte.unsigned alen + 3)
      in Hport by lia.
    rewrite Hport.
    destruct (decide (expHmac = hmacTag)) as [Heq|Hne].
    + rewrite bool_decide_eq_true_2 by done. split; split; try done.
      * by intros [reason ?].
      * by eexists.
    + rewrite bool_decide_eq_false_2 by done. split; split; try done.
      * by eexists.
      * by intros [action ?].
  - intros server method key iv host hi lo data pos bit Hs Hiv Hh Hdata Hpos
      Hbit frame flipped.
    split; [|by apply serverIn_flipped].
    apply (authenticated_flipped method key iv host hi lo data pos bit);
      done.
Qed.

(** C4 (amended). Handshake frame construction: for every first
    [clientOut] chunk DATA that is not empty, the emitted frame is
    [IV || tag || ciphertext] with [ciphertext] the encryption of
    [ALEN || DST.ADDR || DST.PORT || DATA], [enc_addr] the first
    [ciphertext.len - DATA.len] bytes of it, which are the bytes of
    the address header, and [tag] the HMAC-SHA1 of [enc_addr] under
    the key, truncated to 16 bytes. *)
Theorem handshake_frame_construction this method key iv host port data :
  client_ready this method key host port ->
  Buffer.length host <= 255 ->
  data <> [] ->
  let ciphertext := StreamEncrypt method key iv (header host port ++ data) in
  let enc_addr := take (List.length ciphertext - List.length data) ciphertext in
  (clientOut iv data this).1 = Ok (iv ++ tag16 key enc_addr ++ ciphertext) /\
  enc_addr = take (List.length (header host port)) ciphertext.
Proof.
  intros Hc Hh Hdata ciphertext enc_addr. split.
  - by rewrite (clientOut_frame this method key iv host port data).
  - apply enc_addr_header.
Qed.

(** C5 (amended). ALEN = 0: the preset has no check of its own for a
    zero-length address. A first chunk of at least 37 bytes whose
    decrypted tail begins with the byte 0 is rejected exactly when its
    tag differs from the truncated HMAC of [chunk[32 .. 35]]; when the
    tag agrees, CONNECT_TO_DST is broadcast for the empty host. *)
Theorem alen_zero_handshake server method key chunk tail :
  server_ready server method key ->
  37 <= Buffer.length chunk ->
  decrypted_tail method key chunk = byte.of_Z 0 :: tail ->
  let hmacTag := Buffer.slice chunk 16 32 in
  let expHmac := tag16 key (Buffer.slice chunk 32 35) in
  (expHmac <> hmacTag ->
   (serverIn chunk server).1 = Ok (Fail (unexpected_HMAC_SHA1 hmacTag expHmac)))
  /\
  (expHmac = hmacTag ->
   exists port,
     Buffer.readUInt16BE (Buffer.slice (byte.of_Z 0 :: tail) 1 3) = Some port /\
     (serverIn chunk server).1 =
     Ok (Broadcast
           {| targetAddress := {| Preset.host := toString []; Preset.port := port |};
              onConnected :=
                {| captured_data := Buffer.slice_from (byte.of_Z 0 :: tail) 3 |} |})).
Proof.
  intros (Hdone & Hm & Hk) Hlen Htail hmacTag expHmac.
  rewrite <- Hm in Htail.
  rewrite (serverIn_long server chunk key _ tail Hdone Hk Hlen Htail).
  change (byte.unsigned (byte.of_Z 0)) with 0. simpl fst.
  destruct (Z.leb_spec (Buffer.length chunk) (35 + 0)); [lia|].
  change (35 + 0) with 35. change (0 + 1) with 1. change (0 + 3) with 3.
  fold hmacTag expHmac. split; intros Htag.
  - by rewrite bool_decide_eq_false_2.
  - rewrite bool_decide_eq_true_2 by done.
    pose proof (decrypted_tail_length (_cipherName server) key chunk) as Htl.
    rewrite Htail in Htl.
    destruct (readUInt16BE_slice (byte.of_Z 0 :: tail) 1) as [port Hport];
      [lia|unfold Buffer.length in *; lia|].
    change (1 + 2) with 3 in Hport. rewrite Hport.
    exists port. split; [done|].
    do 5 f_equal. by rewrite Buffer_slice_take_drop by lia.
Qed.

(** C6. Short handshake: when the handshake is not done and the chunk
    has fewer than 37 bytes, [serverIn] calls [fail] with the
    [length_1] message, broadcasts nothing, and leaves the instance
    (its cipher and decipher included) as it was. A chunk of exactly
    36 bytes is such a chunk. *)
Theorem short_handshake_fails (this : Preset.t) (buffer : bytes) :
  _isHandshakeDone this = false ->
  Buffer.length buffer < 37 ->
  serverIn buffer this =
  (Ok (Fail (unexpected_buffer_length_1 (Buffer.length buffer) buffer)), this).
Proof.
  intros Hdone Hlen.
  unfold serverIn, bind, get. rewrite Hdone. cbn [negb].
  destruct (Z.ltb_spec (Buffer.length buffer) 37) as [_|Hge]; [|lia].
  reflexivity.
Qed.

(** C7. The handshake flag of an instance: it is [false] when the
    constructor returns, and over any sequence of [clientOut],
    [serverIn], [serverOut], [clientIn] calls and calls of the
    [onConnected] closures handed out, it goes from [false] to [true]
    at most once and never from [true] to [false]. *)
Theorem handshake_done_monotone is_client key type host port method this calls :
  constructor is_client key type host port method = Ok this ->
  let fs := flags {| Session.this := this; handed_out := [] |} calls in
  head fs = Some false /\
  (transitions false true fs <= 1)%nat /\
  transitions true false fs = 0%nat.
Proof.
  intros Hc fs. split.
  - unfold fs. rewrite flags_cons. simpl.
    by rewrite (constructor_flag _ _ _ _ _ _ _ Hc).
  - apply flags_transitions.
Qed.

(** C8. Server list filtering: whenever the options (and the
    configuration file, if one is named) can be read, [obtainConfig]
    returns an object; for the server role it has no [servers]
    property, and for any other role, the servers list it started from
    being a list of strings, it has under [servers] exactly the entries
    that do not start with [-], in their order. *)
Theorem obtainConfig_servers parseInt load (type : Z)
    (options : gmap string Bootstrap.Value) (servers : Bootstrap.Value) :
  Bootstrap.input_servers load options = Ok servers ->
  if type =? Bootstrap.BOOTSTRAP_TYPE_SERVER then
    exists config,
      Bootstrap.obtainConfig parseInt load type options = Ok config /\
      config !! "servers"%string = None
  else
    forall names : list string,
      servers = Bootstrap.array (Bootstrap.str <$> names) ->
      exists config,
        Bootstrap.obtainConfig parseInt load type options = Ok config /\
        config !! "servers"%string =
        Some (Bootstrap.array
                (Bootstrap.str <$>
                   filter (fun name => Bootstrap.disabled name = false) names)).
Proof.
  unfold Bootstrap.input_servers, Bootstrap.obtainConfig.
  set (config := <["host"%string := _]> _).
  assert (config !! "servers"%string
          = Some (Bootstrap.prop options "servers")) as Hcfg
    by apply assembled_servers.
  intros Hin.
  assert (exists merged,
    match Bootstrap.prop options "config" with
    | Bootstrap.str EmptyString => Ok config
    | Bootstrap.str file =>
        match load file with
        | Ok json => Ok (json ∪ config)
        | Throw _ => Throw (Error ("fail to parse your '" ++ file ++ "'"))
        end
    | _ => Throw TypeError
    end = Ok merged /\
    Bootstrap.prop merged "servers" = servers) as (merged & -> & Hm).
  { destruct (Bootstrap.prop options "config") as [| | | | |[|c file]| |];
      try done.
    - exists config. split; [done|]. unfold Bootstrap.prop at 1.
      rewrite Hcfg. simpl. congruence.
    - destruct (load (String c file)) as [json|e]; [|done].
      exists (json ∪ config). split; [done|].
      rewrite (merged_servers json config _ Hcfg). congruence. }
  destruct (type =? Bootstrap.BOOTSTRAP_TYPE_SERVER).
  - eexists. split; [done|]. apply lookup_delete_eq.
  - intros names ->. rewrite Hm, filter_servers_strings.
    eexists. split; [done|]. apply lookup_insert_eq.
Qed.

(** C9 (amended). Re-handshake before the connection is made: after
    [serverIn] has broadcast CONNECT_TO_DST and until [onConnected]
    runs, the flag is still [false] and the next [serverIn] treats
    its chunk as a handshake frame of its own. A chunk below 37 bytes
    fails and leaves the cipher and the decipher of the first
    handshake in place. A chunk of at least 37 bytes replaces both
    with ones created from its first 16 bytes, and fails or broadcasts
    again just as it would on the untouched instance. *)
Theorem rehandshake_before_connected server method key chunk1 action server1
    chunk2 :
  server_ready server method key ->
  serverIn chunk1 server = (Ok (Broadcast action), server1) ->
  _isHandshakeDone server1 = false /\
  if Buffer.length chunk2 <? 37 then
    serverIn chunk2 server1 =
    (Ok (Fail (unexpected_buffer_length_1 (Buffer.length chunk2) chunk2)),
     server1)
  else
    exists outcome server2,
      serverIn chunk2 server1 = (Ok outcome, server2) /\
      serverIn chunk2 server = (Ok outcome, server2) /\
      _cipher server2
      = Some (createCipheriv method key (Buffer.slice chunk2 0 16)) /\
      _decipher server2
      = Some (decipher_update
                (createDecipheriv method key (Buffer.slice chunk2 0 16))
                (Buffer.slice_from chunk2 32)).1 /\
      ((exists reason, outcome = Fail reason) \/
       (exists action2, outcome = Broadcast action2)).
Proof.
  intros Hs Hfirst.
  assert (server1 = server_after server key chunk1) as ->.
  { destruct (Z.ltb_spec (Buffer.length chunk1) 37) as [Hshort|Hlong].
    - destruct Hs as (Hdone & _).
      rewrite serverIn_short in Hfirst by done. discriminate.
    - destruct (serverIn_handshake_outcome server method key chunk1 Hs Hlong)
        as (o & Ho & _).
      congruence. }
  pose proof (server_after_ready server method key chunk1 Hs) as Hs1.
  split; [by destruct Hs1|].
  destruct (Z.ltb_spec (Buffer.length chunk2) 37) as [Hshort|Hlong].
  - destruct Hs1 as (Hdone & _). by apply serverIn_short.
  - destruct (serverIn_handshake_outcome _ method key chunk2 Hs1 Hlong)
      as (o1 & Ho1 & Hkind).
    destruct (serverIn_handshake_outcome server method key chunk2 Hs Hlong)
      as (o & Ho & _).
    rewrite server_after_twice in Ho1.
    assert (o1 = o) as ->.
    { destruct Hs as (Hdone & Hm & Hk), Hs1 as (Hdone1 & Hm1 & Hk1).
      pose proof (decrypted_tail_length method key chunk2) as Htl.
      destruct (decrypted_tail method key chunk2) as [|a tail] eqn:Htail.
      { simpl in Htl. unfold Buffer.length in Hlong. lia. }
      rewrite (serverIn_long _ chunk2 key a tail Hdone1 Hk1 Hlong) in Ho1
        by (by rewrite Hm1).
      rewrite (serverIn_long _ chunk2 key a tail Hdone Hk Hlong) in Ho
        by (by rewrite Hm).
      congruence. }
    exists o, (server_after server key chunk2).
    destruct Hs as (_ & <- & _). by destruct server.
Qed.

(** C10 (amended). Empty first chunk: the first [clientOut] given an
    empty buffer emits [IV || tag || ciphertext] with the tag computed
    over the empty buffer; the frame has [35 + ALEN] bytes, and a
    server with the same method and key rejects it on a length check:
    the minimal-length check when [ALEN <= 1], the post-ALEN check
    otherwise. *)
Theorem empty_chunk_rejected client server method key iv host hi lo :
  client_ready client method key host [hi; lo] ->
  server_ready server method key ->
  List.length iv = 16%nat ->
  Buffer.length host <= 255 ->
  let frame :=
    iv ++ tag16 key [] ++ StreamEncrypt method key iv (header host [hi; lo]) in
  (clientOut iv [] client).1 = Ok frame /\
  Buffer.length frame = 35 + Buffer.length host /\
  (serverIn frame server).1 =
  Ok (Fail (if Buffer.length host <=? 1
            then unexpected_buffer_length_1 (Buffer.length frame) frame
            else unexpected_buffer_length_2 (Buffer.length frame) frame)).
Proof.
  intros Hc (Hdone & Hm & Hk) Hiv Hh frame.
  set (wire := StreamEncrypt method key iv (header host [hi; lo])) in *.
  assert (Buffer.length frame = 35 + Buffer.length host) as Hlen.
  { unfold frame. rewrite frame_length by (done || apply tag16_length).
    unfold Buffer.length, wire.
    rewrite StreamEncrypt_length, header_length. simpl. lia. }
  split; [|split; [done|]].
  - by rewrite (clientOut_empty client method key iv host [hi; lo]).
  - destruct (Z.leb_spec (Buffer.length host) 1) as [Hsmall|Hbig].
    + rewrite serverIn_short by (done || lia). done.
    + assert (decrypted_tail (_cipherName server) key frame
              = byte.of_Z (Buffer.length host) :: host ++ [hi; lo]) as Htail.
      { unfold decrypted_tail, frame.
        rewrite Hm, frame_iv, frame_wire by (done || apply tag16_length).
        destruct (decipher_prefix method key iv (header host [hi; lo]) wire [])
          as [Hd _]; [by rewrite app_nil_r|].
        rewrite Hd. unfold wire. rewrite StreamEncrypt_length.
        by rewrite take_ge by done. }
      rewrite (serverIn_long server frame key _ _ Hdone Hk) by (done || lia).
      rewrite byte_of_length by done. simpl.
      destruct (Z.leb_spec (Buffer.length frame) (35 + Buffer.length host));
        [done|lia].
Qed.

End Statements.

(** * Further properties of the preset *)

(** ** What a call leaves alone *)

Section FieldFacts.

Context `{Node} `{Utils}.

Import Preset Session.

Section Keeps.

Context {X : Type} (f : Preset.t -> X).

Lemma keeps_ret {A} (a : A) : keeps f (ret a).
Proof. by intros this. Qed.

Lemma keeps_throw {A} e : keeps f (throw (A := A) e).
Proof. by intros this. Qed.

Lemma keeps_get {A} (field : Preset.t -> A) : keeps f (get field).
Proof. by intros this. Qed.

Lemma keeps_get_object {A} (field : Preset.t -> option A) :
  keeps f (get_object field).
Proof. intros this. unfold get_object. by destruct (field this). Qed.

Lemma keeps_lift {A} (r : Result A) : keeps f (lift r).
Proof. by intros this. Qed.

Lemma keeps_modify (g : Preset.t -> Preset.t) :
  (forall this, f (g this) = f this) -> keeps f (modify g).
Proof. intros Hg this. apply Hg. Qed.

Lemma keeps_bind {A B} (m : M A) (k : A -> M B) :
  keeps f m -> (forall a, keeps f (k a)) -> keeps f (bind m k).
Proof.
  intros Hm Hk this. unfold bind. specialize (Hm this).
  destruct (m this) as [[a|e] this']; simpl in *; [|done].
  by rewrite Hk.
Qed.

End Keeps.

End FieldFacts.

Ltac solve_keeps :=
  repeat first
    [ progress intros
    | apply keeps_bind
    | apply keeps_ret | apply keeps_throw | apply keeps_get
    | apply keeps_get_object | apply keeps_lift
    | (apply keeps_modify; intros; reflexivity)
    | match goal with
      | |- keeps _ (if ?b then _ else _) => destruct b
      | |- keeps _ (let (_, _) := ?p in _) => destruct p
      | |- keeps _ (match ?x with _ => _ end) => destruct x
      end ].

Section CallFacts.

Context `{Node} `{Utils}.

Import Preset Session.

Lemma keeps_encrypt {X} (f : Preset.t -> X) buffer :
  (forall v this, f (set_cipher v this) = f this) -> keeps f (encrypt buffer).
Proof. intros Hf. unfold encrypt. solve_keeps. apply keeps_modify, Hf. Qed.

Lemma keeps_decrypt {X} (f : Preset.t -> X) buffer :
  (forall v this, f (set_decipher v this) = f this) -> keeps f (decrypt buffer).
Proof. intros Hf. unfold decrypt. solve_keeps. apply keeps_modify, Hf. Qed.

Lemma clientOut_configuration iv buffer :
  keeps configuration (clientOut iv buffer).
Proof. unfold clientOut, initialize_cipher, encrypt. solve_keeps. Qed.

Lemma serverIn_configuration buffer : keeps configuration (serverIn buffer).
Proof. unfold serverIn, initialize_cipher, decrypt. solve_keeps. Qed.

Lemma serverIn_flag buffer : keeps _isHandshakeDone (serverIn buffer).
Proof. unfold serverIn, initialize_cipher, decrypt. solve_keeps. Qed.

Lemma call_onConnected_configuration cb :
  keeps configuration (call_onConnected cb).
Proof. unfold call_onConnected. solve_keeps. Qed.

Lemma step_configuration (i : Instance) (c : Call) :
  configuration (this (step i c)) = configuration (this i).
Proof.
  destruct c as [iv b|b|b|b|n]; simpl.
  - apply clientOut_configuration.
  - pose proof (serverIn_configuration b (this i)).
    by destruct (serverIn b (this i)).
  - by apply keeps_encrypt.
  - by apply keeps_decrypt.
  - by destruct (handed_out i !! n).
Qed.

Lemma step_flag (i : Instance) (c : Call) :
  (forall iv buffer, c <> ClientOut iv buffer) ->
  (forall n, c <> OnConnected n) ->
  _isHandshakeDone (this (step i c)) = _isHandshakeDone (this i).
Proof.
  intros Hc Ho. destruct c as [iv b|b|b|b|n]; simpl.
  - by destruct (Hc iv b).
  - pose proof (serverIn_flag b (this i)).
    by destruct (serverIn b (this i)).
  - by apply keeps_encrypt.
  - by apply keeps_decrypt.
  - by destruct (Ho n).
Qed.

(** The key length [split('-')[1] / 8] gives for each name. *)
Lemma key_length_table name :
  name ∈ ciphers ->
  exists n,
    key_length name = Some n /\
    ((n = 16 /\ name ∈
        ["aes-128-ctr"; "aes-128-cfb"; "camellia-128-cfb"]%string) \/
     (n = 24 /\ name ∈
        ["aes-192-ctr"; "aes-192-cfb"; "camellia-192-cfb"]%string) \/
     (n = 32 /\ name ∈
        ["aes-256-ctr"; "aes-256-cfb"; "camellia-256-cfb"]%string)).
Proof.
  intros Hin. unfold ciphers in Hin.
  repeat (apply elem_of_cons in Hin as [->|Hin]);
    [..|by apply elem_of_nil in Hin];
    eexists; (split; [reflexivity|]);
    first [ left; split; [reflexivity|set_solver]
          | right; left; split; [reflexivity|set_solver]
          | right; right; split; [reflexivity|set_solver] ].
Qed.

End CallFacts.

(** ** Further statements about the preset *)

Section PresetStatements.

Context `{Node} `{!NodeLaws} `{Utils} `{!UtilsLaws}.

Import Preset Session.

(** X1. The constructor returns an instance exactly for the nine
    names of [ciphers]. The instance has its flag unset and no cipher;
    on the server it has no host and no port; it has a key exactly
    when [__KEY__] is a string that is not empty, derived for a key
    length of 16, 24 or 32 bytes according to the 128, 192 or 256 of
    the name, and an IV length of 16. *)
Theorem constructor_outcome is_client key type host port method :
  ((exists this, constructor is_client key type host port method = Ok this)
   <-> exists name, method = Some name /\ name ∈ ciphers) /\
  forall this,
    constructor is_client key type host port method = Ok this ->
    method = Some (_cipherName this) /\
    _isHandshakeDone this = false /\
    _cipher this = None /\ _decipher this = None /\
    (is_client = false -> _host this = None /\ _port this = None) /\
    match key with
    | None | Some EmptyString => _key this = None
    | Some password =>
        exists n,
          _key this = Some (EVP_BytesToKey password n 16) /\
          ((n = 16 /\ _cipherName this ∈
              ["aes-128-ctr"; "aes-128-cfb"; "camellia-128-cfb"]%string) \/
           (n = 24 /\ _cipherName this ∈
              ["aes-192-ctr"; "aes-192-cfb"; "camellia-192-cfb"]%string) \/
           (n = 32 /\ _cipherName this ∈
              ["aes-256-ctr"; "aes-256-cfb"; "camellia-256-cfb"]%string))
    end.
Proof.
  assert (EmptyString ∉ ciphers) as Hempty.
  { unfold ciphers. rewrite !not_elem_of_cons. repeat split; try done.
    apply not_elem_of_nil. }
  split.
  - unfold constructor. split.
    + intros [this Hc]. destruct method as [[|a m]|]; try done.
      exists (String a m). split; [done|].
      destruct (decide (String a m ∈ ciphers)); [done|].
      by rewrite bool_decide_eq_false_2 in Hc.
    + intros (name & -> & Hin).
      destruct name as [|a m]; [done|].
      rewrite bool_decide_eq_true_2 by done. by eexists.
  - unfold constructor. intros this Hc.
    destruct method as [[|a m]|]; try done.
    destruct (decide (String a m ∈ ciphers)) as [Hin|Hout];
      [|by rewrite bool_decide_eq_false_2 in Hc].
    rewrite bool_decide_eq_true_2 in Hc by done. simpl in Hc.
    injection Hc as <-. simpl.
    split; [done|]. split; [done|]. split; [done|]. split; [done|].
    split; [by intros ->|].
    destruct key as [[|p pw]|]; try done.
    destruct (key_length_table _ Hin) as (n & -> & Hn). by exists n.
Qed.

(** X2. Until a chunk of at least 37 bytes has come in, a server
    instance has no cipher and [serverOut] throws a [TypeError],
    leaving the instance as it was. After one such chunk, whether its
    handshake was accepted or rejected, [serverOut] encrypts with a
    cipher created from the first 16 bytes of that chunk. *)
Theorem serverOut_before_handshake server method key chunks chunk buffer :
  server_ready server method key ->
  _cipher server = None ->
  Forall (fun c => Buffer.length c < 37) chunks ->
  (feed server chunks).2 = server /\
  serverOut buffer server = (Throw TypeError, server) /\
  (37 <= Buffer.length chunk ->
   (serverOut buffer (serverIn chunk server).2).1
   = Ok (StreamEncrypt method key (Buffer.slice chunk 0 16) buffer)).
Proof.
  intros Hs Hc Hshort. split; [|split].
  - induction Hshort as [|c chunks Hc1 _ IH]; [done|].
    simpl. destruct Hs as (Hdone & _).
    rewrite serverIn_short by done.
    destruct (feed server chunks). simpl in *. by subst.
  - unfold serverOut, encrypt, bind, get_object. by rewrite Hc.
  - intros Hlong.
    destruct (serverIn_handshake_outcome server method key chunk Hs Hlong)
      as (o & -> & _).
    destruct Hs as (_ & <- & _).
    by erewrite serverOut_ok by (by destruct server).
Qed.

(** X3. Without a key ([__KEY__] unset or empty) the first
    [clientOut] throws a [TypeError] after it has set the flag, so
    every later [clientOut] throws as well and the client never emits
    a byte; [serverIn] throws on any chunk of at least 37 bytes and
    fails on a shorter one. *)
Theorem missing_key is_client key type host port method this
    iv buffer iv' buffer' chunk :
  constructor is_client key type host port method = Ok this ->
  key = None \/ key = Some EmptyString ->
  let this1 := set_isHandshakeDone true this in
  clientOut iv buffer this = (Throw TypeError, this1) /\
  clientOut iv' buffer' this1 = (Throw TypeError, this1) /\
  serverIn chunk this =
  if Buffer.length chunk <? 37
  then (Ok (Fail (unexpected_buffer_length_1 (Buffer.length chunk) chunk)), this)
  else (Throw TypeError, this).
Proof.
  intros Hc Hkey this1.
  assert (_isHandshakeDone this = false /\ _key this = None /\
          _cipher this = None) as (Hdone & Hk & Hci).
  { unfold constructor in Hc. destruct method as [[|a m]|]; try done.
    destruct (negb _); [done|]. injection Hc as <-.
    by destruct Hkey as [-> | ->]. }
  destruct this as [done ho po name k c d]; simpl in *; subst.
  repeat split.
  unfold serverIn, initialize_cipher, bind, get, get_object, ret. simpl.
  by destruct (Buffer.length chunk <? 37).
Qed.

(** X4. The client makes its handshake in its first [clientOut] and
    never again: after a first call, whether it returned or threw,
    the flag is set, and every later [clientOut] is [encrypt]; what
    it returns has the length of what it was given. *)
Theorem client_handshake_once this iv buffer iv' buffer' :
  let this1 := (clientOut iv buffer this).2 in
  _isHandshakeDone this1 = true /\
  clientOut iv' buffer' this1 = encrypt buffer' this1 /\
  forall out this2,
    clientOut iv' buffer' this1 = (Ok out, this2) ->
    List.length out = List.length buffer'.
Proof.
  intros this1.
  assert (_isHandshakeDone this1 = true) as Hdone.
  { unfold this1. destruct (_isHandshakeDone this) eqn:Hd.
    - by apply clientOut_keeps_flag.
    - unfold clientOut. unfold bind at 1, get at 1. rewrite Hd.
      cbn [negb]. unfold bind at 1, modify at 1. cbv beta iota.
      match goal with
      | |- _isHandshakeDone (?m ?s).2 = _ =>
          assert (keeps _isHandshakeDone m) as Hk
            by (unfold initialize_cipher, encrypt; solve_keeps);
          by rewrite (Hk s)
      end. }
  assert (clientOut iv' buffer' this1 = encrypt buffer' this1) as Henc.
  { unfold clientOut, bind at 1, get. by rewrite Hdone. }
  repeat split; [done..|].
  intros out this2. rewrite Henc.
  unfold encrypt, bind, get_object, modify, ret.
  destruct (_cipher this1) as [c|]; [|done].
  pose proof (cipher_update_length c buffer') as Hl.
  destruct (cipher_update c buffer'). simpl in *. by intros [= <- _].
Qed.

(** X5. What the handshake costs: the first [clientOut] returns the
    IV in clear followed by 17 + ALEN + 2 bytes more than it was
    given, for an empty chunk as for any other. *)
Theorem handshake_overhead this method key iv host hi lo data :
  client_ready this method key host [hi; lo] ->
  Buffer.length host <= 255 ->
  exists frame,
    (clientOut iv data this).1 = Ok frame /\
    Buffer.length frame
    = Buffer.length iv + 16 + (1 + Buffer.length host + 2) + Buffer.length data /\
    take (List.length iv) frame = iv.
Proof.
  intros (Hdone & Hm & Hk & Hh & Hp) Hlen.
  rewrite (clientOut_first this iv data host [hi; lo] key) by done.
  eexists. split; [done|]. split.
  - rewrite !Buffer_length_app. unfold Buffer.length.
    rewrite tag16_length, StreamEncrypt_length, length_app, header_length.
    simpl. lia.
  - by rewrite take_app_length.
Qed.


(** X7. Over any sequence of calls the method name, the key, the host
    and the port of an instance stay what the constructor made them,
    and [serverIn], [serverOut] and [clientIn] leave the flag alone:
    only [clientOut] and an [onConnected] closure set it. *)
Theorem configuration_invariant (i : Instance) (calls : list Call) :
  Forall (fun j => configuration (this j) = configuration (this i))
         (trace i calls) /\
  (Forall (fun c => (forall iv buffer, c <> ClientOut iv buffer) /\
                    (forall n, c <> OnConnected n)) calls ->
   Forall (fun j => _isHandshakeDone (this j) = _isHandshakeDone (this i))
          (trace i calls)).
Proof.
  split.
  - revert i. induction calls as [|c calls IH]; intros i; simpl.
    + by constructor.
    + constructor; [done|].
      eapply Forall_impl; [apply IH|]. simpl. intros j ->.
      apply step_configuration.
  - revert i. induction calls as [|c calls IH]; intros i Hcalls; simpl.
    + by constructor.
    + apply Forall_cons in Hcalls as [[Hc Ho] Hcalls].
      constructor; [done|].
      eapply Forall_impl; [by apply IH|]. simpl. intros j ->.
      by apply step_flag.
Qed.

(** X8. Both directions use one keystream: after the handshake the
    cipher of the server is the one the client encrypted the frame
    with, at its start. The first [serverOut] returns for any bytes
    what a cipher fresh from (method, key, IV) returns for them, and
    for [ALEN || DST.ADDR || DST.PORT || DATA] it returns the very
    ciphertext of the frame. *)
Theorem keystream_shared client server method key iv host hi lo data :
  client_ready client method key host [hi; lo] ->
  server_ready server method key ->
  List.length iv = 16%nat ->
  1 <= Buffer.length host <= 255 ->
  data <> [] ->
  exists frame address data' client' server',
    (clientOut iv data client).1 = Ok frame /\
    handshake client server iv data = Some (address, data', client', server') /\
    (forall buffer,
       (serverOut buffer server').1 = Ok (StreamEncrypt method key iv buffer)) /\
    (serverOut (header host [hi; lo] ++ data) server').1 = Ok (drop 32 frame).
Proof.
  intros Hc Hs Hiv Hh Hdata.
  assert (forall server',
            (exists o, serverIn (handshake_frame method key iv host [hi; lo] data)
                         server = (Ok o, server')) ->
            _cipher server' = Some (createCipheriv method key iv)) as Hcipher.
  { intros server' [o Ho].
    destruct (Z.ltb_spec
                (Buffer.length (handshake_frame method key iv host [hi; lo] data))
                37) as [Hshort|Hlong].
    - exfalso. revert Hshort. unfold handshake_frame.
      rewrite frame_length by (done || apply tag16_length).
      unfold Buffer.length in *.
      rewrite StreamEncrypt_length, length_app, header_length.
      destruct data; [done|]. simpl. lia.
    - destruct (serverIn_handshake_outcome server method key _ Hs Hlong)
        as (o' & Ho' & _).
      rewrite Ho' in Ho. injection Ho as _ <-.
      destruct Hs as (_ & <- & _). unfold handshake_frame.
      destruct server. simpl.
      by rewrite frame_iv by (done || apply tag16_length). }
  pose proof (clientOut_frame client method key iv host [hi; lo] data Hc
                ltac:(lia) Hdata) as Hout.
  destruct (handshake_linked client server method key iv host hi lo data)
    as (client' & server' & Hhs & _); try done.
  exists (handshake_frame method key iv host [hi; lo] data).
  eexists _, _, client', server'.
  split; [by rewrite Hout|]. split; [done|].
  assert (_cipher server' = Some (createCipheriv method key iv)) as Hsc.
  { unfold handshake in Hhs. rewrite Hout in Hhs.
    destruct (serverIn _ server) as [[[r|a|b]|e] server1] eqn:Hin; try done.
    simpl in Hhs. injection Hhs as _ _ _ <-.
    rewrite <- (Hcipher server1) by (by eexists). by destruct server1. }
  assert (forall buffer,
            (serverOut buffer server').1
            = Ok (StreamEncrypt method key iv buffer)) as Hall.
  { intros buffer. by rewrite (serverOut_ok server' buffer _ Hsc). }
  split; [done|].
  rewrite Hall. unfold handshake_frame. f_equal.
  rewrite app_assoc, drop_app_length'; [done|].
  rewrite length_app, tag16_length. lia.
Qed.

(** X9. What a broadcast carries: whenever [serverIn] broadcasts
    CONNECT_TO_DST, the chunk had at least 37 bytes, the port is a
    16-bit number, and the closure holds the [chunk.length - 35 - ALEN]
    bytes that followed the address, at least one; the flag is still
    unset. *)
Theorem broadcast_content server method key chunk action server' :
  server_ready server method key ->
  serverIn chunk server = (Ok (Broadcast action), server') ->
  exists alen tail,
    decrypted_tail method key chunk = alen :: tail /\
    37 <= Buffer.length chunk /\
    0 <= port (targetAddress action) <= 65535 /\
    host (targetAddress action)
    = toString (take (Z.to_nat (byte.unsigned alen)) tail) /\
    Buffer.length (captured_data (onConnected action))
    = Buffer.length chunk - 35 - byte.unsigned alen /\
    1 <= Buffer.length (captured_data (onConnected action)) /\
    _isHandshakeDone server' = false.
Proof.
  intros (Hdone & Hm & Hk) Hin.
  destruct (Z.ltb_spec (Buffer.length chunk) 37) as [Hshort|Hlong].
  { by rewrite serverIn_short in Hin. }
  pose proof (decrypted_tail_length method key chunk) as Htl.
  destruct (decrypted_tail method key chunk) as [|alen tail] eqn:Htail.
  { simpl in Htl. unfold Buffer.length in Hlong. lia. }
  exists alen, tail. split; [done|].
  rewrite <- Hm in Htail.
  rewrite (serverIn_long server chunk key alen tail Hdone Hk Hlong Htail) in Hin.
  pose proof (byte.unsigned_range alen) as Ha.
  destruct (Z.leb_spec (Buffer.length chunk) (35 + byte.unsigned alen));
    [done|].
  destruct (bool_decide _); [|done].
  rewrite !Buffer_slice_take_drop in Hin by lia.
  rewrite Buffer_slice_from_drop in Hin by lia.
  replace (Z.to_nat (byte.unsigned alen + 3) - Z.to_nat (byte.unsigned alen + 1))%nat
    with 2%nat in Hin by lia.
  destruct (take 2 (drop (Z.to_nat (byte.unsigned alen + 1)) (alen :: tail)))
    as [|hi [|lo rest]] eqn:Hport; try done.
  simpl in Hin. injection Hin as <- <-. simpl.
  pose proof (byte.unsigned_range hi). pose proof (byte.unsigned_range lo).
  unfold Buffer.length in *. rewrite length_drop, Htl.
  repeat split; try lia.
  - do 2 f_equal. lia.
  - by destruct server.
Qed.

(** X18. An instance fresh from the constructor cannot relay yet:
    before any handshake [serverOut] and [clientIn] throw a
    [TypeError] on every buffer, the empty one included, and leave the
    instance as it was. *)
Theorem fresh_instance_throws is_client key type host port method this buffer :
  constructor is_client key type host port method = Ok this ->
  serverOut buffer this = (Throw TypeError, this) /\
  clientIn buffer this = (Throw TypeError, this).
Proof.
  unfold constructor. intros Hc.
  destruct method as [[|a m]|]; try done.
  destruct (negb (bool_decide (String a m ∈ ciphers))); [done|].
  by injection Hc as <-.
Qed.

End PresetStatements.

(** ** A chunk whose decrypted tail is known *)

Section TailFacts.

Context `{Node} `{!NodeLaws} `{Utils} `{!UtilsLaws}.

Import Preset.

(** [serverIn] given [IV || tag || wire] when the wire decrypts to an
    address header and at least one byte more, and the tag is the one
    of the first [3 + ALEN] wire bytes. *)
Lemma serverIn_accepts_tail server method key iv tag wire host hi lo data :
  server_ready server method key ->
  List.length iv = 16%nat -> List.length tag = 16%nat ->
  Buffer.length host <= 255 ->
  decrypted_tail method key (iv ++ tag ++ wire) = header host [hi; lo] ++ data ->
  37 <= Buffer.length (iv ++ tag ++ wire) ->
  data <> [] ->
  tag = tag16 key (take (3 + List.length host) wire) ->
  serverIn (iv ++ tag ++ wire) server =
  (Ok (Broadcast
         {| targetAddress :=
              {| Preset.host := toString host;
                 Preset.port := byte.unsigned hi * 256 + byte.unsigned lo |};
            onConnected := {| captured_data := data |} |}),
   server_after server key (iv ++ tag ++ wire)).
Proof.
  intros (Hdone & Hm & Hk) Hiv Htag Hh Htail Hlong Hdata Htagv.
  pose proof (decrypted_tail_length method key (iv ++ tag ++ wire)) as Htl.
  rewrite Htail, !length_app, header_length in Htl. simpl in Htl.
  assert (0 < List.length data)%nat by (destruct data; [done|simpl; lia]).
  set (chunk := iv ++ tag ++ wire) in *.
  assert (Buffer.length chunk = 32 + Buffer.length wire) as Hclen
    by (unfold chunk; by rewrite frame_length).
  assert (Buffer.slice chunk 16 32 = tag) as Hctag
    by (unfold chunk; by rewrite frame_tag).
  assert (Buffer.slice chunk 32 (35 + Buffer.length host)
          = take (3 + List.length host) wire) as Hcmac.
  { unfold chunk. rewrite frame_mac_region by (done || apply Buffer_length_nonneg).
    f_equal. unfold Buffer.length. lia. }
  clearbody chunk.
  set (a := byte.of_Z (Buffer.length host)).
  assert (byte.unsigned a = Buffer.length host) as Ha
    by (by apply byte_of_length).
  rewrite <- Hm in Htail. unfold header in Htail. simpl in Htail.
  rewrite <- app_assoc in Htail. fold a in Htail.
  rewrite (serverIn_long server chunk key a _ Hdone Hk Hlong Htail).
  rewrite !Ha, Hclen, Hctag, Hcmac, <- Htagv.
  destruct (Z.leb_spec (32 + Buffer.length wire) (35 + Buffer.length host));
    [unfold Buffer.length in *; lia|].
  rewrite bool_decide_eq_true_2 by done.
  rewrite (Buffer_slice_app3 (a :: host) [hi; lo] data)
    by (unfold Buffer.length; simpl; lia).
  simpl Buffer.readUInt16BE. cbv iota.
  rewrite (Buffer_slice_app3 [a] host ([hi; lo] ++ data))
    by (unfold Buffer.length; simpl; lia).
  replace (a :: host ++ [hi; lo] ++ data)
    with ((a :: host ++ [hi; lo]) ++ data) at 1
    by (simpl; by rewrite <- app_assoc).
  rewrite Buffer_slice_from_app; [done|].
  unfold Buffer.length. simpl. rewrite length_app. simpl. lia.
Qed.

(** Deciphering the first part of what a decipher would turn into
    [plaintext] gives the first part of [plaintext], and the rest
    gives the rest. *)
Lemma decipher_split d wire1 wire2 plaintext :
  (decipher_update d (wire1 ++ wire2)).2 = plaintext ->
  (decipher_update d wire1).2 = take (List.length wire1) plaintext /\
  (decipher_update (decipher_update d wire1).1 wire2).2
  = drop (List.length wire1) plaintext.
Proof.
  intros <-. rewrite decipher_update_app. simpl.
  pose proof (decipher_update_length d wire1) as Hl.
  rewrite <- Hl. split.
  - by rewrite take_app_length.
  - by rewrite drop_app_length.
Qed.

End TailFacts.

Section FlipStatements.

Context `{Node} `{!NodeLaws} `{Utils} `{!UtilsLaws}.

Import Preset.

(** X10. A valid frame with one bit flipped in its tag
    ([chunk[16 .. 32]]) is always rejected on the HMAC check: the
    expected HMAC is still the one of the untouched frame and the tag
    no longer is. *)
Theorem tag_flip_rejected server method key iv host hi lo data pos bit :
  server_ready server method key ->
  List.length iv = 16%nat ->
  1 <= Buffer.length host <= 255 ->
  data <> [] ->
  (16 <= pos < 32)%nat ->
  0 <= bit < 8 ->
  let frame := handshake_frame method key iv host [hi; lo] data in
  let flipped := Buffer.flip_bit frame pos bit in
  Buffer.slice flipped 16 32 <> Buffer.slice frame 16 32 /\
  (serverIn flipped server).1 =
  Ok (Fail (unexpected_HMAC_SHA1 (Buffer.slice flipped 16 32)
                                 (Buffer.slice frame 16 32))).
Proof.
  intros Hs Hiv Hh Hdata Hpos Hbit frame flipped.
  destruct (flipped_frame method key iv host hi lo data 32 bit Hiv)
    as [Hfr _]; [lia|].
  fold frame in Hfr.
  set (wire := StreamEncrypt method key iv (header host [hi; lo] ++ data)) in *.
  set (tag := tag16 key (take (3 + List.length host) wire)) in *.
  assert (List.length tag = 16%nat) as Htag by apply tag16_length.
  set (tag' := alter (Buffer.flip_byte bit) (pos - 16)%nat tag).
  assert (List.length tag' = 16%nat) as Htag'
    by (unfold tag'; by rewrite length_alter).
  assert (flipped = iv ++ tag' ++ wire) as Hfl.
  { unfold flipped, Buffer.flip_bit. rewrite Hfr.
    replace pos with (List.length iv + (pos - 16))%nat at 1 by lia.
    rewrite alter_app_r, alter_app_l by lia. done. }
  assert (tag' <> tag) as Hne.
  { intros Heq. apply (f_equal (fun l => l !! (pos - 16)%nat)) in Heq.
    unfold tag' in Heq. rewrite list_lookup_alter_eq in Heq.
    destruct (tag !! (pos - 16)%nat) as [x|] eqn:Hx.
    - simpl in Heq. injection Heq as Hflip. by apply (flip_byte_neq bit x).
    - apply lookup_ge_None in Hx. lia. }
  clearbody flipped frame. subst flipped frame.
  rewrite !frame_tag by done. split; [done|].
  assert (List.length wire = (3 + List.length host + List.length data)%nat)
    as Hwlen.
  { unfold wire.
    rewrite StreamEncrypt_length, length_app, header_length. simpl. lia. }
  assert (0 < List.length data)%nat by (destruct data; [done|simpl; lia]).
  assert (decrypted_tail method key (iv ++ tag' ++ wire)
          = byte.of_Z (Buffer.length host) :: host ++ [hi; lo] ++ data)
    as Htail.
  { rewrite (decrypted_tail_prefix method key iv tag'
               (header host [hi; lo] ++ data) wire [])
      by (done || by rewrite app_nil_r).
    rewrite take_ge by (fold wire; rewrite length_app, header_length;
                        simpl; lia).
    unfold header. simpl. by rewrite <- app_assoc. }
  destruct Hs as (Hdone & Hm & Hk). rewrite <- Hm in Htail.
  assert (37 <= Buffer.length (iv ++ tag' ++ wire)) as Hlong.
  { rewrite frame_length by done. unfold Buffer.length in *. lia. }
  rewrite (serverIn_long server _ key _ _ Hdone Hk Hlong Htail).
  rewrite byte_of_length by lia.
  rewrite frame_length, frame_tag, frame_mac_region
    by (done || apply Buffer_length_nonneg).
  destruct (Z.leb_spec (32 + Buffer.length wire) (35 + Buffer.length host));
    [unfold Buffer.length in *; lia|].
  replace (Z.to_nat (3 + Buffer.length host)) with (3 + List.length host)%nat
    by (unfold Buffer.length; lia).
  fold tag. by rewrite bool_decide_eq_false_2 by done.
Qed.

(** X11. DATA is not covered by the tag: a valid frame with one bit
    flipped after the encrypted address header is accepted, and the
    server broadcasts the same address with as many bytes of data as
    the frame carried. *)
Theorem data_flip_accepted server method key iv host hi lo data pos bit :
  server_ready server method key ->
  List.length iv = 16%nat ->
  1 <= Buffer.length host <= 255 ->
  data <> [] ->
  (35 + List.length host <= pos)%nat ->
  let frame := handshake_frame method key iv host [hi; lo] data in
  let flipped := Buffer.flip_bit frame pos bit in
  exists data',
    List.length data' = List.length data /\
    (serverIn flipped server).1 =
    Ok (Broadcast
          {| targetAddress :=
               {| Preset.host := toString host;
                  Preset.port := byte.unsigned hi * 256 + byte.unsigned lo |};
             onConnected := {| captured_data := data' |} |}).
Proof.
  intros Hs Hiv Hh Hdata Hpos frame flipped.
  destruct (flipped_frame method key iv host hi lo data pos bit Hiv)
    as [Hfr Hfl]; [lia|].
  fold frame in Hfr. fold frame flipped in Hfl.
  set (wire := StreamEncrypt method key iv (header host [hi; lo] ++ data)) in *.
  set (tag := tag16 key (take (3 + List.length host) wire)) in *.
  assert (List.length tag = 16%nat) as Htag by apply tag16_length.
  assert (List.length wire = (3 + List.length host + List.length data)%nat)
    as Hwlen.
  { unfold wire.
    rewrite StreamEncrypt_length, length_app, header_length. simpl. lia. }
  assert (0 < List.length data)%nat by (destruct data; [done|simpl; lia]).
  set (n := (3 + List.length host)%nat) in *.
  set (w1 := take n wire). set (w2 := drop n wire).
  set (w2' := alter (Buffer.flip_byte bit) (pos - 32 - n)%nat w2).
  assert (wire = w1 ++ w2) as Hsplit by (unfold w1, w2; by rewrite take_drop).
  assert (List.length w1 = n) as Hw1 by (unfold w1; rewrite length_take; lia).
  assert (alter (Buffer.flip_byte bit) (pos - 32)%nat wire = w1 ++ w2')
    as Hwire'.
  { rewrite Hsplit at 1. rewrite alter_app_r_alt by lia. by rewrite Hw1. }
  rewrite Hwire' in Hfl. clearbody flipped. subst flipped.
  destruct (decipher_prefix method key iv (header host [hi; lo] ++ data) w1 w2
              Hsplit) as [Hd1 _].
  set (d := createDecipheriv method key iv) in *.
  exists (decipher_update (decipher_update d w1).1 w2').2.
  assert (List.length (decipher_update (decipher_update d w1).1 w2').2
          = List.length data) as Hlen'.
  { rewrite decipher_update_length. unfold w2'. rewrite length_alter.
    unfold w2. rewrite length_drop. lia. }
  split; [done|].
  rewrite (serverIn_accepts_tail server method key iv tag (w1 ++ w2') host hi lo
             (decipher_update (decipher_update d w1).1 w2').2);
    try done; try lia.
  - unfold decrypted_tail.
    rewrite frame_iv, frame_wire by done. fold d.
    rewrite decipher_update_app. simpl. rewrite Hd1, Hw1.
    rewrite take_app_length'; [done|]. rewrite header_length. simpl. lia.
  - rewrite frame_length by done. unfold Buffer.length in *.
    rewrite length_app, Hw1. unfold w2'. rewrite length_alter.
    unfold w2. rewrite length_drop. lia.
  - intros Hnil. rewrite Hnil in Hlen'. simpl in Hlen'. lia.
  - rewrite take_app_length' by done. unfold tag. by fold w1.
Qed.

End FlipStatements.

(** ** Streams cut into segments *)

Section StreamFacts.

Context `{Node} `{!NodeLaws} `{Utils} `{!UtilsLaws}.

Import Preset Session Stream.

Lemma decipher_update_nil d : (decipher_update d []).2 = [].
Proof.
  pose proof (decipher_update_length d []) as Hl.
  by destruct (decipher_update d []).2.
Qed.

(** Draining segments deciphers them as if they were one. *)
Lemma drain_concat segments : forall server d,
  _isHandshakeDone server = true -> _decipher server = Some d ->
  exists server',
    drain server segments
    = Some ((decipher_update d (concat segments)).2, server').
Proof.
  induction segments as [|segment segments IH]; intros server d Hdone Hd.
  - simpl. rewrite decipher_update_nil. by eexists.
  - simpl. rewrite (serverIn_later server segment d) by done.
    destruct (IH (set_decipher (Some (decipher_update d segment).1) server)
                (decipher_update d segment).1) as [server' ->];
      [by destruct server..|].
    rewrite decipher_update_app. simpl. by eexists.
Qed.

Lemma collect_concat segments : forall client d,
  _decipher client = Some d ->
  exists client',
    collect client segments
    = Some ((decipher_update d (concat segments)).2, client').
Proof.
  induction segments as [|segment segments IH]; intros client d Hd.
  - simpl. rewrite decipher_update_nil. by eexists.
  - simpl. rewrite (clientIn_ok client segment d) by done.
    destruct (IH (set_decipher (Some (decipher_update d segment).1) client)
                (decipher_update d segment).1) as [client' ->];
      [by destruct client|].
    rewrite decipher_update_app. simpl. by eexists.
Qed.

(** What a client sends after its handshake, put end to end, is
    deciphered into what it was given, put end to end. *)
Lemma send_in_sync chunks : forall client iv c d,
  _isHandshakeDone client = true -> _cipher client = Some c -> in_sync c d ->
  exists wires client',
    send client iv chunks = Some (wires, client') /\
    (decipher_update d (concat wires)).2 = concat chunks.
Proof.
  induction chunks as [|chunk chunks IH]; intros client iv c d Hdone Hc Hsync.
  - simpl. eexists _, _. split; [done|]. apply decipher_update_nil.
  - simpl. rewrite (clientOut_later client iv chunk c) by done.
    destruct (IH (set_cipher (Some (cipher_update c chunk).1) client) iv
                (cipher_update c chunk).1
                (decipher_update d (cipher_update c chunk).2).1)
      as (wires & client' & -> & Hw);
      [by destruct client..|by apply in_sync_update|].
    eexists _, _. split; [done|]. simpl.
    rewrite decipher_update_app. simpl.
    by rewrite decipher_cipher, Hw.
Qed.

Lemma reply_in_sync chunks : forall server c d,
  _cipher server = Some c -> in_sync c d ->
  exists wires server',
    reply server chunks = Some (wires, server') /\
    (decipher_update d (concat wires)).2 = concat chunks.
Proof.
  induction chunks as [|chunk chunks IH]; intros server c d Hc Hsync.
  - simpl. eexists _, _. split; [done|]. apply decipher_update_nil.
  - simpl. rewrite (serverOut_ok server chunk c) by done.
    destruct (IH (set_cipher (Some (cipher_update c chunk).1) server)
                (cipher_update c chunk).1
                (decipher_update d (cipher_update c chunk).2).1)
      as (wires & server' & -> & Hw);
      [by destruct server|by apply in_sync_update|].
    eexists _, _. split; [done|]. simpl.
    rewrite decipher_update_app. simpl.
    by rewrite decipher_cipher, Hw.
Qed.

End StreamFacts.

Section StreamStatements.

Context `{Node} `{!NodeLaws} `{Utils} `{!UtilsLaws}.

Import Preset Session Stream.

(** X12. The forward stream survives any cutting by the network.
    Whatever chunks the client is given, the first not empty, and
    however the bytes it returns are cut into segments on their way,
    as long as the first segment reaches past the address header, the
    server broadcasts the address and hands on, first through
    [onConnected] and then from [serverIn], exactly the bytes the
    client was given. *)
Theorem forward_stream_resegmented client server method key iv host hi lo
    first chunks :
  client_ready client method key host [hi; lo] ->
  server_ready server method key ->
  List.length iv = 16%nat ->
  1 <= Buffer.length host <= 255 ->
  first <> [] ->
  exists wires client',
    send client iv (first :: chunks) = Some (wires, client') /\
    forall segment segments,
      segment ++ concat segments = concat wires ->
      35 + Buffer.length host < Buffer.length segment ->
      receive server (segment :: segments) =
      Some ({| Preset.host := toString host;
               Preset.port := byte.unsigned hi * 256 + byte.unsigned lo |},
            first ++ concat chunks).
Proof.
  intros Hc Hs Hiv Hh Hfirst.
  set (plaintext := header host [hi; lo] ++ first).
  set (c0 := createCipheriv method key iv).
  set (d0 := createDecipheriv method key iv).
  set (w0 := StreamEncrypt method key iv plaintext).
  set (tag := tag16 key (take (3 + List.length host) w0)).
  assert (List.length tag = 16%nat) as Htag by apply tag16_length.
  assert (List.length w0 = (3 + List.length host + List.length first)%nat)
    as Hw0.
  { unfold w0, plaintext.
    rewrite StreamEncrypt_length, length_app, header_length. simpl. lia. }
  assert (0 < List.length first)%nat by (destruct first; [done|simpl; lia]).
  assert (clientOut iv first client
          = (Ok (iv ++ tag ++ w0), client_after client key iv plaintext))
    as Hout.
  { rewrite (clientOut_frame client method key iv host [hi; lo] first)
      by (done || lia).
    destruct (flipped_frame method key iv host hi lo first 32 0 Hiv)
      as [-> _]; [lia|]. done. }
  destruct Hc as (Hcd & Hcm & Hck & _).
  destruct (send_in_sync chunks (client_after client key iv plaintext) iv
              (cipher_update c0 plaintext).1
              (decipher_update d0 w0).1)
    as (wires & client' & Hsend & Hdec).
  { by destruct client. }
  { destruct client; simpl in *. by subst. }
  { apply in_sync_update, in_sync_create. }
  exists ((iv ++ tag ++ w0) :: wires), client'.
  split; [simpl; by rewrite Hout, Hsend|].
  intros segment segments Hcut Hlong.
  (* what the whole wire stream deciphers to *)
  set (stream := w0 ++ concat wires).
  assert ((decipher_update d0 stream).2 = plaintext ++ concat chunks)
    as Hstream.
  { unfold stream. rewrite decipher_update_app. cbn [snd]. rewrite Hdec.
    f_equal. apply (decipher_cipher c0 d0), in_sync_create. }
  (* the first segment holds the IV, the tag and a first part of it *)
  set (m := (List.length segment - 32)%nat).
  assert (segment = iv ++ tag ++ take m stream /\
          concat segments = drop m stream) as [Hseg Hrest].
  { assert (List.length segment = (32 + m)%nat) as Hn
      by (unfold m, Buffer.length in *; lia).
    simpl in Hcut. rewrite <- !app_assoc in Hcut. fold stream in Hcut.
    split.
    - rewrite <- (take_app_length segment (concat segments)), Hcut, Hn.
      rewrite !app_assoc.
      rewrite take_app_add' by (rewrite length_app; lia). done.
    - rewrite <- (drop_app_length segment (concat segments)), Hcut, Hn.
      rewrite !app_assoc.
      rewrite drop_app_add' by (rewrite length_app; lia). done. }
  assert (List.length (take m stream) = m) as Hm.
  { rewrite length_take. apply Nat.min_l.
    apply (f_equal List.length) in Hcut. simpl in Hcut.
    rewrite !length_app in Hcut. unfold stream.
    rewrite length_app. unfold m. lia. }
  assert (3 + List.length host < m)%nat as Hpast
    by (unfold m, Buffer.length in *; lia).
  destruct (decipher_split d0 (take m stream) (drop m stream)
              (plaintext ++ concat chunks)) as [Hd1 Hd2].
  { by rewrite take_drop. }
  rewrite Hm in Hd1, Hd2.
  set (given := first ++ concat chunks) in *.
  assert (plaintext ++ concat chunks = header host [hi; lo] ++ given) as Hpt
    by (unfold plaintext, given; by rewrite app_assoc).
  rewrite Hpt in Hd1, Hd2.
  set (held := (m - (3 + List.length host))%nat).
  rewrite take_app_ge in Hd1 by (rewrite header_length; simpl; lia).
  rewrite drop_app_ge in Hd2 by (rewrite header_length; simpl; lia).
  replace (m - List.length (header host [hi; lo]))%nat with held in Hd1, Hd2
    by (rewrite header_length; unfold held; simpl; lia).
  assert (List.length given = (List.length first + List.length (concat chunks))%nat)
    as Hgiven by (unfold given; by rewrite length_app).
  assert (List.length (header host [hi; lo] ++ given)
          = List.length stream) as Hplen.
  { rewrite <- Hpt, <- Hstream. by rewrite decipher_update_length. }
  unfold receive.
  rewrite Hseg.
  rewrite (serverIn_accepts_tail server method key iv tag (take m stream)
             host hi lo (take held given)); try done; try lia.
  - simpl.
    destruct Hs as (Hsd & Hsm & Hsk).
    destruct (drain_concat segments
                (set_isHandshakeDone true
                   (server_after server key (iv ++ tag ++ take m stream)))
                (decipher_update d0 (take m stream)).1) as [server' ->].
    { by destruct server. }
    { unfold server_after. rewrite Hsm, frame_iv, frame_wire by done.
      by destruct server. }
    rewrite Hrest, Hd2. by rewrite take_drop.
  - unfold decrypted_tail. rewrite frame_iv, frame_wire by done.
    fold d0. by rewrite Hd1.
  - rewrite frame_length by done. unfold Buffer.length in *. rewrite Hm. lia.
  - intros Hnil. apply (f_equal List.length) in Hnil.
    rewrite length_take in Hnil. simpl in Hnil.
    rewrite length_app, header_length in Hplen. simpl in Hplen.
    assert (m <= List.length stream)%nat by (rewrite <- Hm, length_take; lia).
    unfold held in Hnil. lia.
  - unfold tag. f_equal. rewrite take_take.
    rewrite Nat.min_l by lia. unfold stream.
    by rewrite take_app_le by lia.
Qed.

(** X13. So does the backward stream: after the handshake, whatever
    chunks the server is given and however the bytes it returns are
    cut into segments, [clientIn] gives back, put end to end, the
    bytes the server was given. *)
Theorem backward_stream_resegmented client server method key iv host hi lo
    data chunks :
  client_ready client method key host [hi; lo] ->
  server_ready server method key ->
  List.length iv = 16%nat ->
  1 <= Buffer.length host <= 255 ->
  data <> [] ->
  exists address client' server' wires server'',
    handshake client server iv data = Some (address, data, client', server') /\
    reply server' chunks = Some (wires, server'') /\
    forall segments,
      concat segments = concat wires ->
      fst <$> collect client' segments = Some (concat chunks).
Proof.
  intros Hc Hs Hiv Hh Hdata.
  destruct (handshake_linked client server method key iv host hi lo data)
    as (client' & server' & Hhs & Hl); try done.
  destruct Hl as (_ & _ & _ & (c & d & Hsc & Hcd & Hsync)).
  destruct (reply_in_sync chunks server' c d Hsc Hsync)
    as (wires & server'' & Hreply & Hdec).
  eexists _, client', server', wires, server''.
  split; [done|]. split; [done|].
  intros segments Hcut.
  destruct (collect_concat segments client' d Hcd) as [client'' ->].
  simpl. by rewrite Hcut, Hdec.
Qed.

End StreamStatements.

(** ** Further statements about [obtainConfig] *)

Section BootstrapStatements.

Import Bootstrap.

Variable parseInt : Value -> Z -> Value.
Variable load : string -> Result (gmap string Value).

(** What [obtainConfig] has merged before it turns to [servers]. *)
Lemma obtainConfig_merged (type : Z) (options : gmap string Value)
    (file : string) (json : gmap string Value) :
  prop options "config" = str file -> file <> EmptyString ->
  load file = Ok json ->
  exists base : gmap string Value,
    obtainConfig parseInt load BOOTSTRAP_TYPE_SERVER
      (<["config" := str EmptyString]> options)
    = Ok (delete "servers" base) /\
    obtainConfig parseInt load type options =
    if type =? BOOTSTRAP_TYPE_SERVER then
      Ok (delete "servers" (json ∪ base))
    else
      match prop (json ∪ base) "servers" with
      | array servers =>
          match filter_servers servers with
          | Ok kept => Ok (<["servers" := array kept]> (json ∪ base))
          | Throw e => Throw e
          end
      | _ => Throw TypeError
      end.
Proof.
  intros Hcfg Hfile Hload. unfold obtainConfig.
  assert (forall name, name <> "config"%string ->
            prop (<["config" := str EmptyString]> options) name
            = prop options name) as Hprop.
  { intros name Hn. unfold prop. by rewrite lookup_insert_ne. }
  cbv zeta.
  rewrite (Hprop "host"%string), (Hprop "servers"%string),
    (Hprop "key"%string), (Hprop "presets"%string),
    (Hprop "redirect"%string), (Hprop "quiet"%string),
    (Hprop "port"%string), (Hprop "logLevel"%string),
    (Hprop "timeout"%string), (Hprop "watch"%string),
    (Hprop "profile"%string) by done.
  set (base := <["host"%string := _]> _).
  exists base. split.
  - unfold prop at 1. rewrite lookup_insert_eq. simpl. done.
  - rewrite Hcfg. destruct file as [|c file]; [done|]. by rewrite Hload.
Qed.

(** X14. The configuration file wins over the command line: with a
    file that can be read, every property of the result other than
    [servers] is the one of the file when the file has it, and
    otherwise the one the same options give without a file. *)
Theorem config_file_overrides (type : Z) (options : gmap string Value)
    (file : string) (json config : gmap string Value) :
  prop options "config" = str file -> file <> EmptyString ->
  load file = Ok json ->
  obtainConfig parseInt load type options = Ok config ->
  exists base,
    obtainConfig parseInt load BOOTSTRAP_TYPE_SERVER
      (<["config" := str EmptyString]> options) = Ok base /\
    forall name : string,
      name <> "servers"%string ->
      config !! name = match json !! name with
                       | Some v => Some v
                       | None => base !! name
                       end.
Proof.
  intros Hcfg Hfile Hload Hok.
  destruct (obtainConfig_merged type options file json Hcfg Hfile Hload)
    as (base & Hbase & Hrun).
  exists (delete "servers" base). split; [done|].
  intros name Hname. rewrite Hrun in Hok.
  assert (config !! name = (json ∪ base) !! name) as ->.
  { destruct (type =? BOOTSTRAP_TYPE_SERVER).
    - injection Hok as <-. by rewrite lookup_delete_ne.
    - destruct (prop (json ∪ base) "servers"); try done.
      destruct (filter_servers items); [|done].
      injection Hok as <-. by rewrite lookup_insert_ne. }
  rewrite lookup_union, lookup_delete_ne by done.
  by destruct (json !! name), (base !! name).
Qed.

(** X15. The two roles differ in [servers] only: whenever
    [obtainConfig] returns an object for a role other than server, it
    returns for the server role, on the same options, that object
    without its [servers]. *)
Theorem server_config_of_client_config (type : Z)
    (options config : gmap string Value) :
  type <> BOOTSTRAP_TYPE_SERVER ->
  obtainConfig parseInt load type options = Ok config ->
  obtainConfig parseInt load BOOTSTRAP_TYPE_SERVER options
  = Ok (delete "servers" config).
Proof.
  intros Htype. unfold obtainConfig.
  set (merged := match prop options "config" with
                 | str EmptyString => _ | _ => _ end).
  destruct merged as [m|e]; [|done].
  destruct (Z.eqb_spec type BOOTSTRAP_TYPE_SERVER); [done|].
  change (BOOTSTRAP_TYPE_SERVER =? BOOTSTRAP_TYPE_SERVER) with true.
  destruct (prop m "servers"); try done.
  destruct (filter_servers items); [|done].
  intros [= <-]. by rewrite delete_insert_eq.
Qed.

Lemma filter_servers_ok (servers : list Value) :
  (exists kept, filter_servers servers = Ok kept) <-> Forall indexable servers.
Proof.
  induction servers as [|server servers IH]; simpl.
  - split; [by constructor|by eexists].
  - split.
    + intros [kept Hk].
      destruct (item0 server) as [first|e] eqn:Hi; [|done].
      destruct (filter_servers servers) as [kept'|e]; [|done].
      constructor; [|apply IH; by eexists].
      split; intros ->; done.
    + intros Hall. apply Forall_cons in Hall as [[Hu Hn] Hall].
      apply IH in Hall as [kept' ->].
      destruct server as [| | | | |[|c s]|[|v l]|]; try done; by eexists.
Qed.

Lemma filter_servers_throws (servers : list Value) e :
  filter_servers servers = Throw e -> e = TypeError.
Proof.
  induction servers as [|server servers IH]; simpl; [done|].
  destruct (item0 server) as [first|e'] eqn:Hi.
  - destruct (filter_servers servers) as [kept'|e']; [done|].
    intros [= <-]. by apply IH.
  - intros [= <-].
    destruct server as [| | | | |[|c s]|[|v l]|]; simpl in Hi; congruence.
Qed.

(** X16. When [obtainConfig] throws. It throws a [TypeError] when
    [options.config] is not a string, and the error
    [fail to parse your '<file>'] when the file it names cannot be
    read, whatever went wrong. Otherwise the server role always gets
    its object; any other role gets one exactly when [servers] is an
    array none of whose entries is [undefined] or [null], and a
    [TypeError] if not. *)
Theorem obtainConfig_failures (type : Z) (options : gmap string Value) :
  match input_servers load options with
  | Throw e =>
      obtainConfig parseInt load type options =
      Throw (match prop options "config" with
             | str file => Error ("fail to parse your '" ++ file ++ "'")
             | _ => TypeError
             end)
  | Ok servers =>
      if type =? BOOTSTRAP_TYPE_SERVER then
        exists config, obtainConfig parseInt load type options = Ok config
      else
        ((exists config, obtainConfig parseInt load type options = Ok config)
         <-> exists entries, servers = array entries /\ Forall indexable entries)
        /\
        ((forall config, obtainConfig parseInt load type options <> Ok config)
         -> obtainConfig parseInt load type options = Throw TypeError)
  end.
Proof.
  unfold input_servers, obtainConfig.
  set (config := <["host"%string := _]> _).
  assert (config !! "servers"%string = Some (prop options "servers")) as Hcfg
    by apply assembled_servers.
  destruct (prop options "config") as [| | | | |[|c file]| |] eqn:Hc; try done.
  - (* no file *)
    assert (prop config "servers" = prop options "servers") as ->
      by (unfold prop at 1; by rewrite Hcfg).
    destruct (type =? BOOTSTRAP_TYPE_SERVER); [by eexists|].
    destruct (prop options "servers") as [| | | | | |entries|] eqn:Hs;
      try (split; [split; [by intros [? ?]|by intros (? & ? & ?)]|done]).
    destruct (filter_servers entries) as [kept|e] eqn:Hf.
    + split; [|intros Hno; by destruct (Hno _ eq_refl)].
      split; [|by eexists]. intros _. exists entries. split; [done|].
      apply filter_servers_ok. by eexists.
    + split.
      * split; [by intros [? ?]|]. intros (l & [= <-] & Hall).
        apply filter_servers_ok in Hall as [kept Hk]. congruence.
      * intros _. by rewrite (filter_servers_throws _ _ Hf).
  - (* a file *)
    destruct (load (String c file)) as [json|e]; [|done].
    rewrite (merged_servers json config _ Hcfg).
    destruct (type =? BOOTSTRAP_TYPE_SERVER); [by eexists|].
    destruct (default (prop options "servers") (json !! "servers"%string))
      as [| | | | | |entries|] eqn:Hs;
      try (split; [split; [by intros [? ?]|by intros (? & ? & ?)]|done]).
    destruct (filter_servers entries) as [kept|e] eqn:Hf.
    + split; [|intros Hno; by destruct (Hno _ eq_refl)].
      split; [|by eexists]. intros _. exists entries. split; [done|].
      apply filter_servers_ok. by eexists.
    + split.
      * split; [by intros [? ?]|]. intros (l & [= <-] & Hall).
        apply filter_servers_ok in Hall as [kept Hk]. congruence.
      * intros _. by rewrite (filter_servers_throws _ _ Hf).
Qed.

(** X17. What the filter keeps, for entries of any kind: the entries
    kept are entries of the list, in their order; none of them is a
    string that starts with [-]; and filtering them again keeps them
    all. *)
Theorem filter_servers_kept (servers kept : list Value) :
  filter_servers servers = Ok kept ->
  sublist kept servers /\
  Forall (fun server => forall rest, server <> str (String "-" rest)) kept /\
  filter_servers kept = Ok kept.
Proof.
  revert kept. induction servers as [|server servers IH]; intros kept; simpl.
  - intros [= <-]. repeat split; by constructor.
  - destruct (item0 server) as [first|e] eqn:Hi; [|done].
    destruct (filter_servers servers) as [kept'|e]; [|done].
    destruct (IH kept' eq_refl) as (Hsub & Hnd & Hidem).
    destruct (is_not_dash first) eqn:Hd; intros [= <-].
    + repeat split.
      * by constructor.
      * constructor; [|done]. intros rest ->. simpl in Hi.
        injection Hi as <-. done.
      * simpl. by rewrite Hi, Hidem, Hd.
    + repeat split; [by constructor|done..].
Qed.

End BootstrapStatements.

(** * The statements at concrete inputs *)

(** Scenario S1 with two more forward chunks, one of them empty, and a
    backward chunk. *)
Lemma round_trip_s1 :
  Session.session Model.client Model.server Model.iv0 Model.hello
    [Session.Fwd Model.localhost; Session.Bwd Model.hello; Session.Fwd []] =
  Some ({| Preset.host := "127.0.0.1"; Preset.port := 9 |}, Model.hello,
        [Session.Fwd Model.localhost; Session.Bwd Model.hello; Session.Fwd []]).
Proof.
  apply (round_trip Model.client Model.server "aes-256-ctr" Model.key Model.iv0
           Model.localhost (byte.of_Z 0) (byte.of_Z 9) Model.hello).
  - repeat split.
  - repeat split.
  - reflexivity.
  - vm_compute. split; discriminate.
  - discriminate.
Defined.

(** An empty first chunk followed by [hello]: the server fails on the
    frame and nothing is recovered. *)
Lemma round_trip_empty_first :
  client_ready Model.client "aes-256-ctr" Model.key Model.localhost Model.port9 /\
  server_ready Model.server "aes-256-ctr" Model.key /\
  Session.session Model.client Model.server Model.iv0 []
    [Session.Fwd Model.hello] = None.
Proof. repeat split. Qed.

(** The frame of S1 cut after 45 bytes: the first fragment carries the
    address and [h], the second one [ello]. *)
Lemma fragmented_handshake_s1 :
  exists server1,
    Preset.serverIn (take 45 Model.frame) Model.server =
    (Ok (Preset.Broadcast
           {| Preset.targetAddress :=
                {| Preset.host := "127.0.0.1"; Preset.port := 9 |};
              Preset.onConnected :=
                {| Preset.captured_data := take 1 Model.hello |} |}),
     server1) /\
    (Preset.serverIn (drop 45 Model.frame)
       (Preset.call_onConnected
          {| Preset.captured_data := take 1 Model.hello |} server1).2).1
    = Ok (Preset.Return (drop 1 Model.hello)).
Proof.
  assert (server_ready Model.server "aes-256-ctr" Model.key) as Hs
    by repeat split.
  assert (Buffer.length Model.localhost <= 255) as Hh
    by (vm_compute; discriminate).
  assert (Model.hello <> []) as Hdata by discriminate.
  assert (handshake_frame "aes-256-ctr" Model.key Model.iv0 Model.localhost
            [byte.of_Z 0; byte.of_Z 9] Model.hello
          = take 45 Model.frame ++ drop 45 Model.frame) as Hframe
    by (vm_compute; reflexivity).
  exact (fragmented_handshake Model.server "aes-256-ctr" Model.key Model.iv0
           Model.localhost (byte.of_Z 0) (byte.of_Z 9) Model.hello
           (take 45 Model.frame) (drop 45 Model.frame)
           Hs eq_refl Hh Hdata Hframe).
Defined.

(** Scenario S4: the 200-byte frame arriving as 20 + 17 + 163 bytes.
    Every one of the three calls fails. *)
Lemma fragmented_handshake_s4 :
  (Preset.clientOut Model.iv0 Model.data156 Model.client).1 = Ok Model.frame200 /\
  Buffer.length Model.frame200 = 200 /\
  concat Model.fragments = Model.frame200 /\
  map Buffer.length Model.fragments = [20; 17; 163] /\
  (Session.feed Model.server Model.fragments).1 =
  [Ok (Preset.Fail
         (Preset.unexpected_buffer_length_1 20 (take 20 Model.frame200)));
   Ok (Preset.Fail
         (Preset.unexpected_buffer_length_1 17 (take 17 (drop 20 Model.frame200))));
   Ok (Preset.Fail
         (Preset.unexpected_buffer_length_2 163 (drop 37 Model.frame200)))].
Proof. repeat split; vm_compute; reflexivity. Qed.

(** Scenario S3: the frame of S1 is accepted exactly because its tag
    agrees, and with bit 0 of byte 32 flipped it is rejected. *)
Lemma hmac_rejection_s3 :
  ((exists action,
      (Preset.serverIn Model.frame Model.server).1 = Ok (Preset.Broadcast action))
   <-> tag16 Model.key (Buffer.slice Model.frame 32 44)
       = Buffer.slice Model.frame 16 32) /\
  (exists reason,
     (Preset.serverIn (Buffer.flip_bit Model.frame 32 0) Model.server).1
     = Ok (Preset.Fail reason)).
Proof.
  assert (server_ready Model.server "aes-256-ctr" Model.key) as Hs
    by repeat split.
  destruct (hmac_rejection (H := Model.node) (H1 := Model.utils)) as [HA HB].
  split.
  - assert (37 <= Buffer.length Model.frame) as Hlen
      by (vm_compute; discriminate).
    assert (decrypted_tail "aes-256-ctr" Model.key Model.frame
            = byte.of_Z 9 :: Model.localhost ++ Model.port9 ++ Model.hello)
      as Htail by (vm_compute; reflexivity).
    assert (35 + byte.unsigned (byte.of_Z 9) < Buffer.length Model.frame)
      as Hlen2 by (vm_compute; reflexivity).
    exact (proj2 (HA Model.server "aes-256-ctr" Model.key Model.frame _ _
                     Hs Hlen Htail Hlen2)).
  - assert (Buffer.length Model.localhost <= 255) as Hh
      by (vm_compute; discriminate).
    assert (Model.hello <> []) as Hdata by discriminate.
    assert (32 <= 32 < 35 + List.length Model.localhost)%nat as Hpos
      by (vm_compute; lia).
    assert (0 <= 0 < 8) as Hbit by lia.
    destruct (HB Model.server "aes-256-ctr" Model.key Model.iv0 Model.localhost
                (byte.of_Z 0) (byte.of_Z 9) Model.hello 32%nat 0
                Hs eq_refl Hh Hdata Hpos Hbit) as [_ [Hrej|Hcollision]].
    + exact Hrej.
    + exfalso. vm_compute in Hcollision. discriminate Hcollision.
Defined.

(** The frame of S1: its tag is computed over the first 12 bytes of
    the ciphertext, the encrypted [ALEN || 127.0.0.1 || 9]. *)
Lemma handshake_frame_construction_s1 :
  (Preset.clientOut Model.iv0 Model.hello Model.client).1 = Ok Model.frame /\
  take (List.length (StreamEncrypt "aes-256-ctr" Model.key Model.iv0
                       (header Model.localhost Model.port9 ++ Model.hello))
        - List.length Model.hello)
       (StreamEncrypt "aes-256-ctr" Model.key Model.iv0
          (header Model.localhost Model.port9 ++ Model.hello))
  = take 12 (drop 32 Model.frame).
Proof.
  destruct (handshake_frame_construction Model.client "aes-256-ctr" Model.key
              Model.iv0 Model.localhost Model.port9 Model.hello)
    as [Hframe Haddr].
  - repeat split.
  - vm_compute. discriminate.
  - discriminate.
  - split.
    + rewrite Hframe. vm_compute. reflexivity.
    + rewrite Haddr. vm_compute. reflexivity.
Defined.

(** An empty first chunk: the tag of the emitted frame is not the tag
    of the encrypted address header. *)
Lemma handshake_frame_construction_empty_chunk :
  client_ready Model.client "aes-256-ctr" Model.key Model.localhost Model.port9 /\
  (Preset.clientOut Model.iv0 [] Model.client).1 <>
  Ok (handshake_frame "aes-256-ctr" Model.key Model.iv0
        Model.localhost Model.port9 []).
Proof.
  split; [repeat split|]. vm_compute. intros Heq. discriminate Heq.
Qed.

(** A 37-byte frame for the empty host whose tag agrees: the server
    broadcasts. *)
Lemma alen_zero_handshake_nohost :
  exists port,
    Buffer.readUInt16BE
      (Buffer.slice (byte.of_Z 0 :: byte.of_Z 0 :: byte.of_Z 9 :: take 2 Model.hello)
                    1 3) = Some port /\
    (Preset.serverIn Model.frame_nohost Model.server).1 =
    Ok (Preset.Broadcast
          {| Preset.targetAddress :=
               {| Preset.host := toString []; Preset.port := port |};
             Preset.onConnected :=
               {| Preset.captured_data :=
                    Buffer.slice_from
                      (byte.of_Z 0 :: byte.of_Z 0 :: byte.of_Z 9 :: take 2 Model.hello)
                      3 |} |}).
Proof.
  assert (server_ready Model.server "aes-256-ctr" Model.key) as Hs
    by repeat split.
  assert (37 <= Buffer.length Model.frame_nohost) as Hlen
    by (vm_compute; discriminate).
  assert (decrypted_tail "aes-256-ctr" Model.key Model.frame_nohost
          = byte.of_Z 0 :: byte.of_Z 0 :: byte.of_Z 9 :: take 2 Model.hello)
    as Htail by (vm_compute; reflexivity).
  apply (proj2 (alen_zero_handshake Model.server "aes-256-ctr" Model.key
                  Model.frame_nohost _ Hs Hlen Htail)).
  vm_compute. reflexivity.
Defined.

(** A frame whose decrypted tail begins with the byte 0 and whose tag
    is the one of its three header bytes: the server broadcasts. *)
Lemma alen_zero_accepted :
  server_ready Model.server "aes-256-ctr" Model.key /\
  Buffer.length Model.frame_nohost = 37 /\
  Buffer.index (decrypted_tail "aes-256-ctr" Model.key Model.frame_nohost) 0
  = Some (byte.of_Z 0) /\
  (Preset.serverIn Model.frame_nohost Model.server).1 =
  Ok (Preset.Broadcast
        {| Preset.targetAddress := {| Preset.host := EmptyString; Preset.port := 9 |};
           Preset.onConnected :=
             {| Preset.captured_data := take 2 Model.hello |} |}).
Proof. repeat split; vm_compute; reflexivity. Qed.

(** Scenario S2: the first 36 bytes of the frame of S1. *)
Lemma short_handshake_fails_36 :
  Buffer.length Model.frame36 = 36 /\
  Preset.serverIn Model.frame36 Model.server =
  (Ok (Preset.Fail (Preset.unexpected_buffer_length_1 36 Model.frame36)),
   Model.server).
Proof.
  split; [reflexivity|].
  apply (short_handshake_fails Model.server Model.frame36);
    [reflexivity | vm_compute; reflexivity].
Defined.

(** A server instance that fails once, broadcasts twice and has its
    second closure called before its first. *)
Lemma handshake_done_monotone_s1 :
  let fs :=
    Session.flags {| Session.this := Model.server; Session.handed_out := [] |}
      [Session.ServerIn Model.frame36; Session.ServerIn Model.frame;
       Session.ServerIn Model.frame; Session.OnConnected 1;
       Session.ServerOut Model.hello; Session.OnConnected 0;
       Session.ServerIn Model.hello] in
  head fs = Some false /\
  (Session.transitions false true fs <= 1)%nat /\
  Session.transitions true false fs = 0%nat.
Proof.
  apply (handshake_done_monotone false (Some "secret"%string) 3 [] Model.port9
           (Some "aes-256-ctr"%string) Model.server).
  reflexivity.
Defined.

(** A client with three servers of which the second is disabled. *)
Lemma obtainConfig_servers_client :
  exists config,
    Bootstrap.obtainConfig Model.model_parseInt Model.no_file 0 Model.options
    = Ok config /\
    config !! "servers"%string =
    Some (Bootstrap.array [Bootstrap.str "a.example:443";
                           Bootstrap.str "c.example:443"]).
Proof.
  apply (obtainConfig_servers Model.model_parseInt Model.no_file 0 Model.options
           (Bootstrap.prop Model.options "servers") eq_refl
           ["a.example:443"; "-b.example:443"; "c.example:443"]%string).
  reflexivity.
Defined.

(** The frame of S1 received twice before [onConnected] runs: the
    second call replaces the cipher and the decipher and broadcasts
    again. *)
Lemma rehandshake_before_connected_s1 :
  let server1 := (Preset.serverIn Model.frame Model.server).2 in
  Preset._isHandshakeDone server1 = false /\
  exists outcome server2,
    Preset.serverIn Model.frame server1 = (Ok outcome, server2) /\
    Preset.serverIn Model.frame Model.server = (Ok outcome, server2) /\
    Preset._cipher server2
    = Some (createCipheriv "aes-256-ctr" Model.key (Buffer.slice Model.frame 0 16)) /\
    Preset._decipher server2
    = Some (decipher_update
              (createDecipheriv "aes-256-ctr" Model.key (Buffer.slice Model.frame 0 16))
              (Buffer.slice_from Model.frame 32)).1 /\
    ((exists reason, outcome = Preset.Fail reason) \/
     (exists action2, outcome = Preset.Broadcast action2)).
Proof.
  assert (server_ready Model.server "aes-256-ctr" Model.key) as Hs
    by repeat split.
  assert (Preset.serverIn Model.frame Model.server =
          (Ok (Preset.Broadcast
                 {| Preset.targetAddress :=
                      {| Preset.host := "127.0.0.1"; Preset.port := 9 |};
                    Preset.onConnected :=
                      {| Preset.captured_data := Model.hello |} |}),
           (Preset.serverIn Model.frame Model.server).2)) as Hfirst.
  { rewrite (surjective_pairing (Preset.serverIn Model.frame Model.server)) at 1.
    f_equal; vm_compute; reflexivity. }
  exact (rehandshake_before_connected Model.server "aes-256-ctr" Model.key
           Model.frame _ _ Model.frame Hs Hfirst).
Defined.

(** After the frame of S1 has been accepted and before [onConnected]
    runs, 36 bytes that start with another IV: the call fails and the
    cipher is still the one created from the IV of S1. *)
Lemma rehandshake_short_chunk :
  let server1 := (Preset.serverIn Model.frame Model.server).2 in
  (exists action,
     (Preset.serverIn Model.frame Model.server).1 = Ok (Preset.Broadcast action)) /\
  Preset._isHandshakeDone server1 = false /\
  Buffer.slice Model.other36 0 16 = Model.iv1 /\
  (Preset.serverIn Model.other36 server1).1 =
  Ok (Preset.Fail (Preset.unexpected_buffer_length_1 36 Model.other36)) /\
  Preset._cipher (Preset.serverIn Model.other36 server1).2
  = Some (createCipheriv "aes-256-ctr" Model.key Model.iv0) /\
  Preset._cipher (Preset.serverIn Model.other36 server1).2
  <> Some (createCipheriv "aes-256-ctr" Model.key
             (Buffer.slice Model.other36 0 16)).
Proof.
  cbv zeta. split; [eexists; vm_compute; reflexivity|].
  repeat split; try (vm_compute; reflexivity).
  vm_compute. intros Heq. discriminate Heq.
Qed.

Lemma empty_chunk_rejected_localhost :
  let frame :=
    Model.iv0 ++ tag16 Model.key [] ++
    StreamEncrypt "aes-256-ctr" Model.key Model.iv0
      (header Model.localhost Model.port9) in
  (Preset.clientOut Model.iv0 [] Model.client).1 = Ok frame /\
  Buffer.length frame = 44 /\
  (Preset.serverIn frame Model.server).1 =
  Ok (Preset.Fail (Preset.unexpected_buffer_length_2 44 frame)).
Proof.
  assert (client_ready Model.client "aes-256-ctr" Model.key Model.localhost
            Model.port9) as Hc by repeat split.
  assert (server_ready Model.server "aes-256-ctr" Model.key) as Hs
    by repeat split.
  assert (Buffer.length Model.localhost <= 255) as Hh
    by (vm_compute; discriminate).
  exact (empty_chunk_rejected Model.client Model.server "aes-256-ctr" Model.key
           Model.iv0 Model.localhost (byte.of_Z 0) (byte.of_Z 9)
           Hc Hs eq_refl Hh).
Defined.

(** An empty first chunk for the host [a]: the frame has 36 bytes and
    it is the minimal-length check that rejects it. *)
Lemma empty_chunk_short_host :
  client_ready Model.client_a "aes-256-ctr" Model.key
    (list_byte_of_string "a") Model.port9 /\
  server_ready Model.server "aes-256-ctr" Model.key /\
  let frame := Model.first_frame Model.client_a Model.iv0 [] in
  (Preset.clientOut Model.iv0 [] Model.client_a).1 = Ok frame /\
  Preset.serverIn frame Model.server =
  (Ok (Preset.Fail (Preset.unexpected_buffer_length_1 36 frame)),
   Model.server).
Proof.
  split; [repeat split|]. split; [repeat split|].
  split; [vm_compute; reflexivity|].
  rewrite serverIn_short; [|reflexivity|vm_compute; reflexivity].
  reflexivity.
Qed.

(** * The further statements at concrete inputs *)

Lemma constructor_outcome_secret :
  exists this,
    Preset.constructor true (Some "secret"%string) 3 Model.localhost Model.port9
      (Some "aes-256-ctr"%string) = Ok this /\
    Preset._isHandshakeDone this = false /\
    Preset._cipher this = None /\ Preset._decipher this = None.
Proof.
  destruct (constructor_outcome true (Some "secret"%string) 3 Model.localhost
              Model.port9 (Some "aes-256-ctr"%string)) as [[_ Hex] Hfields].
  destruct Hex as [this Hthis].
  - exists "aes-256-ctr"%string. split; [reflexivity|].
    unfold Preset.ciphers. repeat constructor.
  - exists this. split; [exact Hthis|].
    destruct (Hfields this Hthis) as (_ & Hflag & Hc & Hd & _).
    repeat split; assumption.
Defined.

(** A server that has seen 36 and then 20 bytes. *)
Lemma serverOut_before_handshake_s2 :
  (Session.feed Model.server [Model.frame36; take 20 Model.frame]).2
  = Model.server /\
  Preset.serverOut Model.hello Model.server = (Throw TypeError, Model.server) /\
  (37 <= Buffer.length Model.frame ->
   (Preset.serverOut Model.hello
      (Preset.serverIn Model.frame Model.server).2).1
   = Ok (StreamEncrypt "aes-256-ctr" Model.key
           (Buffer.slice Model.frame 0 16) Model.hello)).
Proof.
  apply (serverOut_before_handshake Model.server "aes-256-ctr" Model.key
           [Model.frame36; take 20 Model.frame] Model.frame Model.hello).
  - repeat split.
  - reflexivity.
  - repeat constructor; vm_compute; reflexivity.
Defined.

Lemma missing_key_server :
  let this1 := Preset.set_isHandshakeDone true Cases.keyless in
  Preset.clientOut Model.iv0 Model.hello Cases.keyless
  = (Throw TypeError, this1) /\
  Preset.clientOut Model.iv1 Model.hello this1 = (Throw TypeError, this1) /\
  Preset.serverIn Model.frame Cases.keyless =
  if Buffer.length Model.frame <? 37
  then (Ok (Preset.Fail
              (Preset.unexpected_buffer_length_1 (Buffer.length Model.frame)
                 Model.frame)), Cases.keyless)
  else (Throw TypeError, Cases.keyless).
Proof.
  apply (missing_key false None 3 [] Model.port9 (Some "aes-256-ctr"%string)
           Cases.keyless Model.iv0 Model.hello Model.iv1 Model.hello
           Model.frame).
  - reflexivity.
  - left. reflexivity.
Defined.

Lemma client_handshake_once_s1 :
  let this1 := (Preset.clientOut Model.iv0 Model.hello Model.client).2 in
  Preset._isHandshakeDone this1 = true /\
  Preset.clientOut Model.iv1 Model.localhost this1
  = Preset.encrypt Model.localhost this1 /\
  forall out this2,
    Preset.clientOut Model.iv1 Model.localhost this1 = (Ok out, this2) ->
    List.length out = List.length Model.localhost.
Proof.
  exact (client_handshake_once Model.client Model.iv0 Model.hello
           Model.iv1 Model.localhost).
Defined.

(** The frame of S1: 16 + 16 + 12 + 5 bytes. *)
Lemma handshake_overhead_s1 :
  exists frame,
    (Preset.clientOut Model.iv0 Model.hello Model.client).1 = Ok frame /\
    Buffer.length frame
    = Buffer.length Model.iv0 + 16 + (1 + Buffer.length Model.localhost + 2)
      + Buffer.length Model.hello /\
    take (List.length Model.iv0) frame = Model.iv0.
Proof.
  apply (handshake_overhead Model.client "aes-256-ctr" Model.key Model.iv0
           Model.localhost (byte.of_Z 0) (byte.of_Z 9) Model.hello).
  - repeat split.
  - vm_compute. discriminate.
Defined.


(** A server that fails, broadcasts, answers and is connected. *)
Lemma configuration_invariant_s1 :
  let i := {| Session.this := Model.server; Session.handed_out := [] |} in
  let calls := [Session.ServerIn Model.frame36; Session.ServerIn Model.frame;
                Session.ServerOut Model.hello; Session.OnConnected 0;
                Session.ServerIn Model.hello] in
  Forall (fun j => configuration (Session.this j)
                   = configuration (Session.this i))
         (Session.trace i calls) /\
  (Forall (fun c => (forall iv buffer, c <> Session.ClientOut iv buffer) /\
                    (forall n, c <> Session.OnConnected n)) calls ->
   Forall (fun j => Preset._isHandshakeDone (Session.this j)
                    = Preset._isHandshakeDone (Session.this i))
          (Session.trace i calls)).
Proof.
  exact (configuration_invariant
           {| Session.this := Model.server; Session.handed_out := [] |}
           [Session.ServerIn Model.frame36; Session.ServerIn Model.frame;
            Session.ServerOut Model.hello; Session.OnConnected 0;
            Session.ServerIn Model.hello]).
Defined.

Lemma keystream_shared_s1 :
  exists frame address data' client' server',
    (Preset.clientOut Model.iv0 Model.hello Model.client).1 = Ok frame /\
    Session.handshake Model.client Model.server Model.iv0 Model.hello
    = Some (address, data', client', server') /\
    (forall buffer,
       (Preset.serverOut buffer server').1
       = Ok (StreamEncrypt "aes-256-ctr" Model.key Model.iv0 buffer)) /\
    (Preset.serverOut
       (header Model.localhost [byte.of_Z 0; byte.of_Z 9] ++ Model.hello)
       server').1 = Ok (drop 32 frame).
Proof.
  apply (keystream_shared Model.client Model.server "aes-256-ctr" Model.key
           Model.iv0 Model.localhost (byte.of_Z 0) (byte.of_Z 9) Model.hello).
  - repeat split.
  - repeat split.
  - reflexivity.
  - vm_compute. split; discriminate.
  - discriminate.
Defined.

(** The broadcast of S1. *)
Lemma broadcast_content_s1 :
  let action :=
    {| Preset.targetAddress :=
         {| Preset.host := "127.0.0.1"; Preset.port := 9 |};
       Preset.onConnected := {| Preset.captured_data := Model.hello |} |} in
  exists alen tail,
    decrypted_tail "aes-256-ctr" Model.key Model.frame = alen :: tail /\
    37 <= Buffer.length Model.frame /\
    0 <= Preset.port (Preset.targetAddress action) <= 65535 /\
    Preset.host (Preset.targetAddress action)
    = toString (take (Z.to_nat (byte.unsigned alen)) tail) /\
    Buffer.length (Preset.captured_data (Preset.onConnected action))
    = Buffer.length Model.frame - 35 - byte.unsigned alen /\
    1 <= Buffer.length (Preset.captured_data (Preset.onConnected action)) /\
    Preset._isHandshakeDone (Preset.serverIn Model.frame Model.server).2 = false.
Proof.
  assert (server_ready Model.server "aes-256-ctr" Model.key) as Hs
    by repeat split.
  assert (Preset.serverIn Model.frame Model.server =
          (Ok (Preset.Broadcast
                 {| Preset.targetAddress :=
                      {| Preset.host := "127.0.0.1"; Preset.port := 9 |};
                    Preset.onConnected :=
                      {| Preset.captured_data := Model.hello |} |}),
           (Preset.serverIn Model.frame Model.server).2)) as Hfirst.
  { rewrite (surjective_pairing (Preset.serverIn Model.frame Model.server)) at 1.
    f_equal; vm_compute; reflexivity. }
  exact (broadcast_content Model.server "aes-256-ctr" Model.key Model.frame
           _ _ Hs Hfirst).
Defined.

(** Bit 0 of byte 16, the first byte of the tag. *)
Lemma tag_flip_rejected_s1 :
  let frame := handshake_frame "aes-256-ctr" Model.key Model.iv0
                 Model.localhost [byte.of_Z 0; byte.of_Z 9] Model.hello in
  let flipped := Buffer.flip_bit frame 16 0 in
  Buffer.slice flipped 16 32 <> Buffer.slice frame 16 32 /\
  (Preset.serverIn flipped Model.server).1 =
  Ok (Preset.Fail
        (Preset.unexpected_HMAC_SHA1 (Buffer.slice flipped 16 32)
                                     (Buffer.slice frame 16 32))).
Proof.
  apply (tag_flip_rejected Model.server "aes-256-ctr" Model.key Model.iv0
           Model.localhost (byte.of_Z 0) (byte.of_Z 9) Model.hello 16%nat 0).
  - repeat split.
  - reflexivity.
  - vm_compute. split; discriminate.
  - discriminate.
  - lia.
  - lia.
Defined.

(** Bit 7 of byte 44, the first byte of the encrypted [hello]. *)
Lemma data_flip_accepted_s1 :
  let frame := handshake_frame "aes-256-ctr" Model.key Model.iv0
                 Model.localhost [byte.of_Z 0; byte.of_Z 9] Model.hello in
  let flipped := Buffer.flip_bit frame 44 7 in
  exists data',
    List.length data' = List.length Model.hello /\
    (Preset.serverIn flipped Model.server).1 =
    Ok (Preset.Broadcast
          {| Preset.targetAddress :=
               {| Preset.host := toString Model.localhost;
                  Preset.port := byte.unsigned (byte.of_Z 0) * 256
                                 + byte.unsigned (byte.of_Z 9) |};
             Preset.onConnected := {| Preset.captured_data := data' |} |}).
Proof.
  apply (data_flip_accepted Model.server "aes-256-ctr" Model.key Model.iv0
           Model.localhost (byte.of_Z 0) (byte.of_Z 9) Model.hello 44%nat 7).
  - repeat split.
  - reflexivity.
  - vm_compute. split; discriminate.
  - discriminate.
  - vm_compute. lia.
Defined.

(** [hello], then the host, nothing and [hello] again. *)
Lemma forward_stream_resegmented_s1 :
  exists wires client',
    Stream.send Model.client Model.iv0
      (Model.hello :: [Model.localhost; []; Model.hello])
    = Some (wires, client') /\
    forall segment segments,
      segment ++ concat segments = concat wires ->
      35 + Buffer.length Model.localhost < Buffer.length segment ->
      Stream.receive Model.server (segment :: segments) =
      Some ({| Preset.host := toString Model.localhost;
               Preset.port := byte.unsigned (byte.of_Z 0) * 256
                              + byte.unsigned (byte.of_Z 9) |},
            Model.hello ++ concat [Model.localhost; []; Model.hello]).
Proof.
  apply (forward_stream_resegmented Model.client Model.server "aes-256-ctr"
           Model.key Model.iv0 Model.localhost (byte.of_Z 0) (byte.of_Z 9)
           Model.hello [Model.localhost; []; Model.hello]).
  - repeat split.
  - repeat split.
  - reflexivity.
  - vm_compute. split; discriminate.
  - discriminate.
Defined.

Lemma backward_stream_resegmented_s1 :
  exists address client' server' wires server'',
    Session.handshake Model.client Model.server Model.iv0 Model.hello
    = Some (address, Model.hello, client', server') /\
    Stream.reply server' [Model.localhost; []; Model.hello]
    = Some (wires, server'') /\
    forall segments,
      concat segments = concat wires ->
      fst <$> Stream.collect client' segments
      = Some (concat [Model.localhost; []; Model.hello]).
Proof.
  apply (backward_stream_resegmented Model.client Model.server "aes-256-ctr"
           Model.key Model.iv0 Model.localhost (byte.of_Z 0) (byte.of_Z 9)
           Model.hello [Model.localhost; []; Model.hello]).
  - repeat split.
  - repeat split.
  - reflexivity.
  - vm_compute. split; discriminate.
  - discriminate.
Defined.

(** A client whose file has a port, a key and servers, and whose
    command line has a port and servers. *)
Lemma config_file_overrides_client :
  exists base,
    Bootstrap.obtainConfig Model.model_parseInt Cases.one_file
      Bootstrap.BOOTSTRAP_TYPE_SERVER
      (<["config" := Bootstrap.str EmptyString]> Cases.file_options) = Ok base /\
    forall name : string,
      name <> "servers"%string ->
      Cases.config_of Cases.one_file 0 Cases.file_options !! name
      = match Cases.json !! name with
        | Some v => Some v
        | None => base !! name
        end.
Proof.
  apply (config_file_overrides Model.model_parseInt Cases.one_file 0
           Cases.file_options "blinksocks.json" Cases.json).
  - reflexivity.
  - discriminate.
  - reflexivity.
  - reflexivity.
Defined.

Lemma server_config_of_client_config_s1 :
  Bootstrap.obtainConfig Model.model_parseInt Model.no_file
    Bootstrap.BOOTSTRAP_TYPE_SERVER Model.options
  = Ok (delete "servers"%string (Cases.config_of Model.no_file 0 Model.options)).
Proof.
  apply (server_config_of_client_config Model.model_parseInt Model.no_file 0
           Model.options).
  - discriminate.
  - reflexivity.
Defined.

(** A file that cannot be read. *)
Lemma obtainConfig_failures_no_file :
  Bootstrap.obtainConfig Model.model_parseInt Model.no_file 0 Cases.file_options
  = Throw (Error "fail to parse your 'blinksocks.json'").
Proof.
  exact (obtainConfig_failures Model.model_parseInt Model.no_file 0
           Cases.file_options).
Defined.

Lemma filter_servers_kept_entries :
  let kept := [Bootstrap.str "a.example:443"; Bootstrap.number 5;
               Bootstrap.array []] in
  sublist kept Cases.entries /\
  Forall (fun server => forall rest, server <> Bootstrap.str (String "-" rest))
         kept /\
  Bootstrap.filter_servers kept = Ok kept.
Proof.
  apply (filter_servers_kept Cases.entries).
  reflexivity.
Defined.

Lemma fresh_instance_throws_keyless :
  Preset.serverOut [] Cases.keyless = (Throw TypeError, Cases.keyless) /\
  Preset.clientIn [] Cases.keyless = (Throw TypeError, Cases.keyless).
Proof.
  apply (fresh_instance_throws false None 3 [] Model.port9
           (Some "aes-256-ctr"%string)).
  reflexivity.
Defined.
